(** * data_cleaning.py: the sales-data cleaning pipeline

    A shallow embedding of [src/data_cleaning.py] and the properties of its
    four transformation stages ([clean_column_names],
    [strip_product_and_category], [handle_missing_values],
    [remove_invalid_rows]).

    Conventions of the model:
    - a Python [str] is a Rocq [string], read as its sequence of code
      points, each below 256 (Latin-1); the string methods work on the list
      of characters, with the whitespace class and the case mapping Python
      has on those code points;
    - a number is a signed decimal or an infinity: the range of binary64
      (overflow to a range error, underflow to zero) is modelled, the
      rounding of a value that is in range is not, and only the sign of a
      value is ever inspected;
    - a DataFrame is its ordered column labels with its rows in order; the
      row index plays no part in the four stages and is left out;
    - the pandas operations the script calls ([DataFrame.__getitem__],
      [__setitem__], [to_numeric], [dropna], [astype], [.str.strip], boolean
      indexing) are defined below with the behaviour of pandas 1.x/2.x. *)

From Stdlib Require Import ZArith Ascii String.
From stdpp Require Import base tactics option list strings.

Local Open Scope string_scope.
Local Open Scope list_scope.

(** ** Python string methods *)

Module PyStr.

Abbreviation chars := (list ascii).

Definition of_string (s : string) : chars := list_ascii_of_string s.
Definition to_string (l : chars) : string := string_of_list_ascii l.

Definition code (c : ascii) : nat := nat_of_ascii c.

(** [str.isspace] on one character: TAB, LF, VT, FF, CR, the four
    separators FS, GS, RS, US, the space, NEL (U+0085) and the no-break
    space (U+00A0). *)
Definition isspace (c : ascii) : bool :=
  let n := code c in
  (((9 <=? n) && (n <=? 13)) || ((28 <=? n) && (n <=? 31)) || (n =? 32)
   || (n =? 133) || (n =? 160))%nat.

(** The characters [str.lower] changes: [A]-[Z] and the capital letters
    U+00C0-U+00DE, the multiplication sign U+00D7 apart. *)
Definition isupper (c : ascii) : bool :=
  let n := code c in
  (((65 <=? n) && (n <=? 90))
   || ((192 <=? n) && (n <=? 222) && negb (n =? 215)))%nat.

Definition lower_char (c : ascii) : ascii :=
  if isupper c then ascii_of_nat (code c + 32) else c.

(** [s.lower()] *)
Definition lower (l : chars) : chars := lower_char <$> l.

Fixpoint lstrip (l : chars) : chars :=
  match l with
  | c :: l' => if isspace c then lstrip l' else l
  | [] => []
  end.

Definition rstrip (l : chars) : chars := reverse (lstrip (reverse l)).

(** [s.strip()] *)
Definition strip (l : chars) : chars := rstrip (lstrip l).

(** [s.startswith(p)] *)
Fixpoint startswith (p l : chars) : bool :=
  match p, l with
  | [], _ => true
  | a :: p', b :: l' => Ascii.eqb a b && startswith p' l'
  | _ :: _, [] => false
  end.

(** [sub in s] *)
Fixpoint contains (sub l : chars) : bool :=
  startswith sub l ||
  match l with
  | [] => false
  | _ :: l' => contains sub l'
  end.

(** [s.replace(old, new)] for a non-empty [old]: scan from the left; at an
    occurrence of [old] emit [new] and jump over the occurrence
    ([skip] counts the characters of it still to jump over), otherwise
    copy one character. *)
Fixpoint replace_from (old new : chars) (skip : nat) (l : chars) : chars :=
  match l with
  | [] => []
  | c :: l' =>
      match skip with
      | S k => replace_from old new k l'
      | O =>
          if startswith old l
          then new ++ replace_from old new (length old - 1) l'
          else c :: replace_from old new 0 l'
      end
  end.

Definition replace (old new l : chars) : chars := replace_from old new 0 l.

End PyStr.

Import PyStr.

Definition us : chars := of_string "_".
Definition uu : chars := of_string "__".

(** ** Cells, numbers and data frames *)

(** A numeric value: [Fin m e] stands for the double that the conversion
    makes of [m * 10^e]; [m] is [0] when that double is a zero. *)
Inductive number :=
  | Fin (m e : Z)
  | PInf
  | NInf.

(** A cell holds text, a number, or the missing marker (NaN). *)
Inductive cell :=
  | CStr (s : string)
  | CNum (v : number)
  | CNaN.

Record DataFrame := mkDF {
  columns : list string;
  rows : list (list cell)
}.

Definition nrows (df : DataFrame) : nat := length (rows df).

Inductive exn := KeyError | TypeError | AttributeError.

Inductive result (A : Type) :=
  | Ok (a : A)
  | Raise (e : exn).
Arguments Ok {A} a.
Arguments Raise {A} e.

(** Sequencing: an exception ends the computation. *)
Definition result_bind {A B} (k : A -> result B) (r : result A) : result B :=
  match r with
  | Ok a => k a
  | Raise e => Raise e
  end.

#[global] Instance result_mbind : MBind result := @result_bind.

(** [for x in xs: s = body(x, s)] *)
Fixpoint for_each {A S} (xs : list A) (body : A -> S -> result S) (s : S)
  : result S :=
  match xs with
  | [] => Ok s
  | x :: xs' => s' ← body x s; for_each xs' body s'
  end.

(** ** The pandas operations used by the script *)

(** Integer positions of the columns labelled [col]. *)
Definition positions (col : string) (cols : list string) : list nat :=
  filter (fun i => cols !! i = Some col) (seq 0 (length cols)).

(** [col in df.columns] *)
Definition col_in (col : string) (df : DataFrame) : bool :=
  bool_decide (col ∈ columns df).

(** [df[col]] is a Series when the label occurs once and a DataFrame when it
    occurs several times. *)
Inductive selection :=
  | Series (loc : nat)
  | Frame (locs : list nat).

Definition getitem (df : DataFrame) (col : string) : result selection :=
  match positions col (columns df) with
  | [] => Raise KeyError
  | [i] => Ok (Series i)
  | locs => Ok (Frame locs)
  end.

Definition cell_at (r : list cell) (loc : nat) : cell :=
  default CNaN (r !! loc).

(** The values of the column at position [loc], top to bottom. *)
Definition values (loc : nat) (df : DataFrame) : list cell :=
  (fun r => cell_at r loc) <$> rows df.

(** [df[col] = s] for a Series [s] on the index of [df]. *)
Definition setitem (loc : nat) (s : list cell) (df : DataFrame) : DataFrame :=
  mkDF (columns df) (zip_with (fun r c => <[loc := c]> r) (rows df) s).

Definition isna (c : cell) : bool :=
  match c with
  | CNaN => true
  | _ => false
  end.

(** [df.dropna(subset=labels)]: a row goes when one of the named columns
    holds the missing marker in it. *)
Definition subset_locs (labels : list string) (df : DataFrame) : list nat :=
  concat ((fun c => positions c (columns df)) <$> labels).

Definition notna_at (locs : list nat) (r : list cell) : bool :=
  forallb (fun i => negb (isna (cell_at r i))) locs.

Definition dropna (labels : list string) (df : DataFrame) : DataFrame :=
  mkDF (columns df) (filter (fun r => notna_at (subset_locs labels df) r) (rows df)).

(** [df[mask]] for a boolean Series [mask] on the index of [df]. *)
Definition boolean_index (mask : list bool) (df : DataFrame) : DataFrame :=
  mkDF (columns df)
       (fst <$> filter (fun p => Is_true (snd p)) (zip (rows df) mask)).

(** ** [pandas.to_numeric(..., errors="coerce")] *)

Module ToNumeric.

(** The character tests of pandas' tokenizer, all on ASCII. *)
Definition isspace_ascii (c : ascii) : bool :=
  let n := code c in (((9 <=? n) && (n <=? 13)) || (n =? 32))%nat.

Definition isdigit_ascii (c : ascii) : bool :=
  let n := code c in ((48 <=? n) && (n <=? 57))%nat.

Definition tolower_ascii (c : ascii) : ascii :=
  let n := code c in
  if ((65 <=? n) && (n <=? 90))%nat then ascii_of_nat (n + 32) else c.

Definition digit (c : ascii) : Z := Z.of_nat (code c - 48).

Fixpoint skip_space (l : chars) : chars :=
  match l with
  | c :: l' => if isspace_ascii c then skip_space l' else l
  | [] => []
  end.

Fixpoint skip_digits (l : chars) : chars :=
  match l with
  | c :: l' => if isdigit_ascii c then skip_digits l' else l
  | [] => []
  end.

(** An optional sign: whether it is a minus, and the rest. *)
Definition scan_sign (l : chars) : bool * chars :=
  match l with
  | c :: l' =>
      if Ascii.eqb c "-" then (true, l')
      else if Ascii.eqb c "+" then (false, l')
      else (false, l)
  | [] => (false, [])
  end.

(** *** The arithmetic of the scanner

    The scanner counts in C [int]s and computes in C [double]s.  An [int]
    is taken to wrap around at 32 bits.  A [double] that holds a whole
    number is written as that number, and the operations below say how
    binary64 rounds (to the nearest, ties to even) where the scanner
    multiplies and divides. *)

Definition wrap32 (z : Z) : Z := ((z + 2 ^ 31) mod 2 ^ 32 - 2 ^ 31)%Z.

(** The quotient [q] with remainder [r] over [den], to the nearest, ties
    to even. *)
Definition nearest_even (q r den : Z) : Z :=
  (if 2 * r <? den then q
   else if den <? 2 * r then q + 1
   else if Z.even q then q else q + 1)%Z.

(** A whole number, not negative, as the double nearest to it: 53
    significant bits are kept. *)
Definition round53 (x : Z) : Z :=
  (if x <? 2 ^ 53 then x
   else
     let k := Z.log2 x - 52 in
     nearest_even (x / 2 ^ k) (x mod 2 ^ k) (2 ^ k) * 2 ^ k)%Z.

(** The entry [1e<k>] of the scanner's table of powers of ten. *)
Definition pow10 (k : Z) : Z := round53 (10 ^ k).

(** [number = number * 10. + digit] *)
Definition push_digit (number : Z) (c : ascii) : Z :=
  round53 (round53 (number * 10) + digit c).

(** The double nearest to [a / b], as mantissa and binary exponent, the
    exponent not below that of the subnormals. *)
Definition round_ratio (a b : Z) : Z * Z :=
  (if a =? 0 then (0, -1074)
   else
     let e0 := Z.log2 a - Z.log2 b in
     let lo :=
       if a * 2 ^ Z.max 0 (- e0) <? b * 2 ^ Z.max 0 e0 then e0 - 1 else e0 in
     let E := Z.max (lo - 52) (-1074) in
     let num := a * 2 ^ Z.max 0 (- E) in
     let den := b * 2 ^ Z.max 0 E in
     (nearest_even (num / den) (num mod den) den, E))%Z.

(** A product that binary64 rounds to infinity. *)
Definition huge (p : Z) : bool := (2 ^ 1024 - 2 ^ 970 <=? p)%Z.

(** The scaling of the digits read by the decimal exponent: [None] is the
    range error (exponent above 308, or a product that is infinite);
    otherwise the digits, or [0] when the quotient is a zero. *)
Definition scale (number exponent : Z) : option Z :=
  (if 308 <? exponent then None
   else if 0 <? exponent then
     if huge (number * pow10 exponent) then None else Some number
   else if exponent <? -308 then
     if exponent <? -616 then Some 0
     else
       let '(m1, E1) := round_ratio number (pow10 (-308 - exponent)) in
       let '(m2, _) :=
         round_ratio (m1 * 2 ^ (E1 + 1074)) (pow10 308 * 2 ^ 1074) in
       if m2 =? 0 then Some 0 else Some number
   else Some number)%Z.

(** *** The scanner *)

Definition max_digits : nat := 17.

(** The digits before the point: the first 17 go into the number, each
    further one raises the exponent. *)
Fixpoint scan_int_digits (l : chars) (number : Z) (num_digits : nat)
  (exponent : Z) : Z * nat * Z * chars :=
  match l with
  | c :: l' =>
      if isdigit_ascii c then
        if (num_digits <? max_digits)%nat
        then scan_int_digits l' (push_digit number c) (S num_digits) exponent
        else scan_int_digits l' number num_digits (wrap32 (exponent + 1))
      else (number, num_digits, exponent, l)
  | [] => (number, num_digits, exponent, [])
  end.

(** The digits after the point, as long as fewer than 17 digits are in. *)
Fixpoint scan_frac_digits (l : chars) (number : Z) (num_digits : nat)
  (num_decimals : Z) : Z * nat * Z * chars :=
  match l with
  | c :: l' =>
      if (num_digits <? max_digits)%nat && isdigit_ascii c
      then scan_frac_digits l' (push_digit number c) (S num_digits)
             (num_decimals + 1)%Z
      else (number, num_digits, num_decimals, l)
  | [] => (number, num_digits, num_decimals, [])
  end.

(** The digits of the exponent, 17 at most. *)
Fixpoint scan_exp_digits (l : chars) (n : Z) (num_digits : nat)
  : Z * nat * chars :=
  match l with
  | c :: l' =>
      if (num_digits <? max_digits)%nat && isdigit_ascii c
      then scan_exp_digits l' (wrap32 (n * 10 + digit c)) (S num_digits)
      else (n, num_digits, l)
  | [] => (n, num_digits, [])
  end.

(** The exponent part, entered at the character after the mantissa.  With
    no digit after the [e] and its sign the scan steps one character back
    and the exponent is left as it was. *)
Definition scan_exponent (exponent : Z) (l : chars) : Z * chars :=
  match l with
  | c :: l' =>
      if Ascii.eqb c "e" || Ascii.eqb c "E" then
        let '(neg, l1) := scan_sign l' in
        let '(n, num_digits, l2) := scan_exp_digits l1 0 0 in
        match num_digits with
        | O =>
            (exponent,
             match l' with
             | s :: _ => if Ascii.eqb s "-" || Ascii.eqb s "+" then l' else l
             | [] => l
             end)
        | S _ => (wrap32 (if neg then exponent - n else exponent + n), l2)
        end
      else (exponent, l)
  | [] => (exponent, [])
  end.

(** The scanner behind the conversion (pandas' [precise_xstrtod] with
    decimal point [.], exponent mark [e] and no thousands separator):
    leading blanks, sign, digits, fraction, exponent, scaling, trailing
    blanks.  [None] is its range error, for a text without any digit or a
    value out of range; otherwise the value and the unread rest. *)
Definition xstrtod (l : chars) : option (number * chars) :=
  let '(negative, l1) := scan_sign (skip_space l) in
  let '(number, num_digits, exponent, l2) := scan_int_digits l1 0 0 0 in
  let '(number, num_digits, exponent, l3) :=
    match l2 with
    | c :: l2' =>
        if Ascii.eqb c "." then
          let '(number', num_digits', num_decimals, l') :=
            scan_frac_digits l2' number num_digits 0 in
          (number', num_digits', wrap32 (exponent - num_decimals),
           if (max_digits <=? num_digits')%nat then skip_digits l' else l')
        else (number, num_digits, exponent, l2)
    | [] => (number, num_digits, exponent, [])
    end in
  match num_digits with
  | O => None
  | S _ =>
      let '(exponent, l4) := scan_exponent exponent l3 in
      match scale number exponent with
      | None => None
      | Some m =>
          Some (Fin (if negative then - m else m) exponent, skip_space l4)
      end
  end.

(** [to_double]: the scan succeeded and consumed the whole text. *)
Definition to_double (l : chars) : option number :=
  match xstrtod l with
  | Some (v, []) => Some v
  | _ => None
  end.

(** The names of the special values, compared without regard to case.
    [Some None] is NaN. *)
Definition special (l : chars) : option (option number) :=
  let w := to_string (tolower_ascii <$> l) in
  if bool_decide (w = "inf" ∨ w = "+inf" ∨ w = "infinity" ∨ w = "+infinity")
  then Some (Some PInf)
  else if bool_decide (w = "-inf" ∨ w = "-infinity") then Some (Some NInf)
  else if bool_decide (w = "nan" ∨ w = "+nan" ∨ w = "-nan") then Some None
  else None.

(** The text as the C code sees it: the characters before the first NUL. *)
Fixpoint c_str (l : chars) : chars :=
  match l with
  | c :: l' => if Ascii.eqb c zero then [] else c :: c_str l'
  | [] => []
  end.

(** The scanner's [maybe_int] flag after a scan: it is cleared where the
    scanner meets the decimal point or the exponent mark. *)
Definition maybe_int (l : chars) : bool :=
  let '(_, l1) := scan_sign (skip_space l) in
  let '(_, _, _, l2) := scan_int_digits l1 0 0 0 in
  match l2 with
  | c :: _ =>
      negb (Ascii.eqb c "." || Ascii.eqb c "e" || Ascii.eqb c "E")
  | [] => true
  end.

(** [floatify]: [None] is its ValueError, [Some None] is NaN. *)
Definition floatify (l : chars) : option (option number) :=
  match to_double l with
  | Some v => Some (Some v)
  | None => special l
  end.

Definition has_nul (l : chars) : bool :=
  existsb (fun c => Ascii.eqb c zero) l.

(** [int(val)], which the conversion calls on a text the scanner took
    for a whole number, raises ValueError on a text with a NUL in it. *)
Definition int_raises (l : chars) : bool :=
  match to_double (c_str l) with
  | Some _ => maybe_int (c_str l) && has_nul l
  | None => false
  end.

(** One element under [errors="coerce"]: text that does not convert, and
    the empty text, become NaN; numbers and NaN stay.  The scanner is given
    the text as a C string. *)
Definition to_numeric_cell (c : cell) : cell :=
  match c with
  | CStr s =>
      match of_string s with
      | [] => CNaN
      | l =>
          match floatify (c_str l) with
          | Some (Some v) => if int_raises l then CNaN else CNum v
          | _ => CNaN
          end
      end
  | CNum v => CNum v
  | CNaN => CNaN
  end.

Definition to_numeric (s : list cell) : list cell := to_numeric_cell <$> s.

End ToNumeric.

Import ToNumeric.

(** [x >= 0] on one element of a numeric column; NaN compares false.  (Text
    does not occur: the column has been through [to_numeric].) *)
Definition nonneg (v : number) : bool :=
  match v with
  | Fin m _ => (0 <=? m)%Z
  | PInf => true
  | NInf => false
  end.

Definition ge_zero (c : cell) : bool :=
  match c with
  | CNum v => nonneg v
  | CNaN => false
  | CStr _ => false
  end.

(** [f] applied to the cell under [col], when the label names one column. *)
Definition at_label (col : string) (cols : list string) (f : cell -> cell)
  (r : list cell) : list cell :=
  match positions col cols with
  | [i] => alter f i r
  | _ => r
  end.

(** ** The four stages of [data_cleaning.py] *)

(** The body of the loop of [clean_column_names] for one label; the [while]
    loop runs on fuel, [None] when the fuel runs out. *)
Fixpoint collapse_loop (fuel : nat) (name : chars) : option chars :=
  if contains uu name then
    match fuel with
    | O => None
    | S fuel' => collapse_loop fuel' (replace uu us name)
    end
  else Some name.

Definition collapse (name : chars) : chars :=
  default name (collapse_loop (length name) name).

Definition normalize_chars (c : chars) : chars :=
  let name := lower (strip c) in
  let name :=
    replace (of_string "-") us
      (replace (of_string "/") us (replace (of_string " ") us name)) in
  collapse name.

Definition normalize_label (c : string) : string :=
  to_string (normalize_chars (of_string c)).

Definition clean_column_names (df : DataFrame) : DataFrame :=
  let new_cols := normalize_label <$> columns df in
  mkDF new_cols (rows df).

Definition str_contains (sub s : string) : bool :=
  contains (of_string sub) (of_string s).

Definition is_target (c : string) : bool :=
  str_contains "product" c || str_contains "category" c.

(** [[c for c in df.columns if ("product" in c) or ("category" in c)]] *)
Definition targets (cols : list string) : list string :=
  filter (fun c => Is_true (is_target c)) cols.

Section TextTrimmer.

(** [str(x)] of a number: the script leaves it to Python, and nothing
    below depends on the digits it prints. *)
Context (str_of_number : number -> string).

(** [Series.astype(str)]: the missing marker becomes the text [nan]. *)
Definition astype_str_cell (c : cell) : cell :=
  match c with
  | CStr s => CStr s
  | CNum v => CStr (str_of_number v)
  | CNaN => CStr "nan"
  end.

(** [Series.str.strip()]: an element that is not text gives NaN. *)
Definition str_strip_cell (c : cell) : cell :=
  match c with
  | CStr s => CStr (to_string (strip (of_string s)))
  | _ => CNaN
  end.

(** [df[col] = df[col].astype(str).str.strip()]; on a label that occurs
    twice [df[col]] is a DataFrame, which has no [.str]. *)
Definition strip_column (col : string) (df : DataFrame) : result DataFrame :=
  sel ← getitem df col;
  match sel with
  | Series i =>
      Ok (setitem i (str_strip_cell <$> (astype_str_cell <$> values i df)) df)
  | Frame _ => Raise AttributeError
  end.

Definition strip_product_and_category (df : DataFrame) : result DataFrame :=
  let target_cols := targets (columns df) in
  for_each target_cols strip_column df.

(** The trimmer read row by row: one cell, and one row over a list of
    target labels. *)
Definition trim_cell (c : cell) : cell := str_strip_cell (astype_str_cell c).

Definition trim_all (ts : list string) (cols : list string) (r : list cell)
  : list cell :=
  foldl (fun r t => at_label t cols trim_cell r) r ts.

End TextTrimmer.

(** [if col in df.columns: df[col] = pd.to_numeric(df[col], errors="coerce")];
    [to_numeric] refuses a DataFrame with a TypeError. *)
Definition coerce_column (col : string) (df : DataFrame) : result DataFrame :=
  if col_in col df then
    sel ← getitem df col;
    match sel with
    | Series i => Ok (setitem i (to_numeric (values i df)) df)
    | Frame _ => Raise TypeError
    end
  else Ok df.

Definition numeric_cols : list string := ["price"; "quantity"].

Definition handle_missing_values (df : DataFrame) : result DataFrame :=
  df ← for_each numeric_cols coerce_column df;
  let required_cols := filter (fun c => Is_true (col_in c df)) numeric_cols in
  match required_cols with
  | [] => Ok df
  | _ :: _ => Ok (dropna required_cols df)
  end.

(** [df = df[df[col] >= 0]].  The label occurs once here, the coercion
    before it has passed; the other case is closed with the same error. *)
Definition keep_nonneg (col : string) (df : DataFrame) : result DataFrame :=
  if col_in col df then
    sel ← getitem df col;
    match sel with
    | Series i => Ok (boolean_index (ge_zero <$> values i df) df)
    | Frame _ => Raise TypeError
    end
  else Ok df.

Definition remove_invalid_rows (df : DataFrame) : result DataFrame :=
  df ← for_each numeric_cols coerce_column df;
  df ← keep_nonneg "price" df;
  keep_nonneg "quantity" df.

(** [s.replace(a, b)] for single characters, character by character. *)
Definition subst_char (a b c : ascii) : ascii :=
  if Ascii.eqb a c then b else c.

(** What the three single-character replacements do to one character. *)
Definition rewrite_char (c : ascii) : ascii :=
  subst_char "-" "_" (subst_char "/" "_" (subst_char " " "_" c)).

Definition clean_char (c : ascii) : Prop :=
  isupper c = false /\ c <> " "%char /\ c <> "/"%char /\ c <> "-"%char.

(** A text is trimmed when neither end is a whitespace character. *)
Definition trimmed (l : chars) : Prop :=
  (forall c, head l = Some c -> isspace c = false) /\
  (forall c, last l = Some c -> isspace c = false).

(** The lexical form of a label. *)
Definition lowercase (l : chars) : Prop := Forall (fun c => isupper c = false) l.



(** ... and the form the normalizer establishes: the space is the only
    whitespace character it replaces inside a label. *)
Definition normal_form (l : chars) : Prop :=
  lowercase l /\ (" "%char ∉ l) /\ trimmed l /\
  ("/"%char ∉ l) /\ ("-"%char ∉ l) /\ contains uu l = false.

(** ** The stages read row by row *)

(** A row after the coercion of both numeric columns. *)
Definition coerced (cols : list string) (r : list cell) : list cell :=
  at_label "quantity" cols to_numeric_cell
    (at_label "price" cols to_numeric_cell r).

Definition required_locs (cols : list string) : list nat :=
  positions "price" cols ++ positions "quantity" cols.

Definition nonneg_at (locs : list nat) (r : list cell) : bool :=
  forallb (fun i => ge_zero (cell_at r i)) locs.

(** The rows [handle_missing_values] leaves. *)
Definition resolved_rows (cols : list string) (rs : list (list cell))
  : list (list cell) :=
  filter (fun r => Is_true (notna_at (required_locs cols) r)) (coerced cols <$> rs).

(** The rows [remove_invalid_rows] leaves. *)
Definition valid_rows (cols : list string) (rs : list (list cell))
  : list (list cell) :=
  filter (fun r => Is_true (nonneg_at (positions "quantity" cols) r))
    (filter (fun r => Is_true (nonneg_at (positions "price" cols) r))
       (coerced cols <$> rs)).

(** A label names at most one column. *)
Definition single (col : string) (cols : list string) : Prop :=
  forall i j, cols !! i = Some col -> cols !! j = Some col -> i = j.
















(** The collision rule as the specification states it: after the
    normalizer no column under the shared label holds the values of the
    earlier of two colliding columns. *)
Definition collision_overwrites (df : DataFrame) : Prop :=
  forall i j a b,
    i < j -> columns df !! i = Some a -> columns df !! j = Some b ->
    a <> b -> normalize_label a = normalize_label b ->
    forall k,
      ~ (columns (clean_column_names df) !! k = Some (normalize_label a) /\
         values k (clean_column_names df) = values i df).


(** ** The script as a whole *)

(** The chain under [if __name__ == "__main__"], between [load_data] and
    [to_csv]: the four stages in order, each fed the result of the one
    before. *)
Definition run_stages (str_of_number : number -> string) (df_raw : DataFrame)
  : result DataFrame :=
  let df_clean := clean_column_names df_raw in
  df_clean ← strip_product_and_category str_of_number df_clean;
  df_clean ← handle_missing_values df_clean;
  remove_invalid_rows df_clean.

(** A label names two columns or more. *)
Definition duplicated (col : string) (cols : list string) : Prop :=
  2 <= length (positions col cols).

(** A run of whitespace characters. *)
Definition blank (l : chars) : Prop := Forall (fun c => isspace c = true) l.




(** ** Sample data *)

(** A small sales table: a padded product name, a price that is not a
    number, a negative price, a missing product and a missing quantity. *)
Definition sales : DataFrame :=
  mkDF ["product"; "price"; "quantity"]
    [ [CStr " Widget  "; CStr "1.5"; CStr "2"];
      [CNaN; CStr "abc"; CStr "3"];
      [CStr "x"; CStr "-5"; CStr "3"];
      [CStr "y"; CNum (Fin 5 0); CNaN] ].

(** The same table after [handle_missing_values] ... *)
Definition sales_resolved : DataFrame :=
  mkDF ["product"; "price"; "quantity"]
    [ [CStr " Widget  "; CNum (Fin 15 (-1)); CNum (Fin 2 0)];
      [CStr "x"; CNum (Fin (-5) 0); CNum (Fin 3 0)] ].

(** ... and after [remove_invalid_rows]. *)
Definition sales_valid : DataFrame :=
  mkDF ["product"; "price"; "quantity"]
    [ [CStr " Widget  "; CNum (Fin 15 (-1)); CNum (Fin 2 0)] ].

(** The table after [strip_product_and_category]. *)
Definition sales_trimmed : DataFrame :=
  mkDF ["product"; "price"; "quantity"]
    [ [CStr "Widget"; CStr "1.5"; CStr "2"];
      [CStr "nan"; CStr "abc"; CStr "3"];
      [CStr "x"; CStr "-5"; CStr "3"];
      [CStr "y"; CNum (Fin 5 0); CNaN] ].

(** A rendering of numbers to run the trimmer with. *)
Definition sample_str (v : number) : string :=
  match v with
  | Fin _ _ => "5"
  | PInf => "inf"
  | NInf => "-inf"
  end.

(** Frames in which a label the stages select occurs twice. *)
Definition doubled_price : DataFrame :=
  mkDF ["price"; "price"] [ [CStr "1"; CStr "2"] ].

Definition doubled_product : DataFrame :=
  mkDF ["product"; "product"] [ [CStr " a"; CStr "b "] ].

(** A raw table as [load_data] hands it over, and what the four stages
    make of it. *)
Definition sales_raw : DataFrame :=
  mkDF [" Product Name "; "Unit-Price"; "Price"; "Quantity"]
    [ [CStr " Widget  "; CStr "x"; CStr "1.5"; CStr "2"];
      [CNaN; CStr "y"; CStr "abc"; CStr "3"];
      [CStr "Gadget"; CStr "z"; CStr "-5"; CStr "3"] ].

Definition sales_clean : DataFrame :=
  mkDF ["product_name"; "unit_price"; "price"; "quantity"]
    [ [CStr "Widget"; CStr "x"; CNum (Fin 15 (-1)); CNum (Fin 2 0)] ].

(** Two raw headers that differ only in case. *)
Definition clash : DataFrame :=
  mkDF ["Price"; "price"] [ [CNum (Fin 1 0); CNum (Fin 2 0)] ].

(** * Properties *)

(** ** Characters and the string methods *)

Section Characters.

Lemma ascii_cases (P : ascii -> Prop) :
  (forall b0 b1 b2 b3 b4 b5 b6 b7, P (Ascii b0 b1 b2 b3 b4 b5 b6 b7)) ->
  forall c, P c.
Proof. intros H [b0 b1 b2 b3 b4 b5 b6 b7]. apply H. Qed.

Ltac by_cases c :=
  pattern c; apply ascii_cases;
  intros [] [] [] [] [] [] [] []; vm_compute; try reflexivity; try congruence.

Lemma isupper_lower_char c : isupper (lower_char c) = false.
Proof. by_cases c. Qed.

Lemma lower_char_id c : isupper c = false -> lower_char c = c.
Proof. unfold lower_char. by intros ->. Qed.

Lemma isspace_lower_char c : isspace (lower_char c) = isspace c.
Proof. by_cases c. Qed.

Lemma eqb_lower_char c (d : ascii) :
  isupper d = false -> lower_char c = d -> isupper c = true \/ c = d.
Proof.
  unfold lower_char. destruct (isupper c); [by left|]. intros _ ->. by right.
Qed.

End Characters.

Section Strip.

Implicit Types l : chars.

Lemma lstrip_split l :
  exists ws, l = ws ++ lstrip l /\ Forall (fun c => isspace c = true) ws.
Proof.
  induction l as [|c l [ws [E F]]]; simpl.
  - by exists [].
  - destruct (isspace c) eqn:Hc.
    + exists (c :: ws). split; [simpl; by f_equal | by constructor].
    + by exists [].
Qed.

Lemma lstrip_head l c : head (lstrip l) = Some c -> isspace c = false.
Proof.
  induction l as [|a l IH]; simpl; [done|].
  destruct (isspace a) eqn:Ha; [done|]. simpl. by intros [= <-].
Qed.

Lemma lstrip_id l :
  (forall c, head l = Some c -> isspace c = false) -> lstrip l = l.
Proof. destruct l as [|a l]; simpl; [done|]. intros H. by rewrite (H a). Qed.

Lemma lstrip_last l c :
  last (lstrip l) = Some c -> last l = Some c.
Proof.
  destruct (lstrip_split l) as [ws [E _]]. intros H.
  rewrite E at 1. rewrite last_app, H. done.
Qed.

Lemma rstrip_last l c : last (rstrip l) = Some c -> isspace c = false.
Proof. unfold rstrip. rewrite last_reverse. apply lstrip_head. Qed.

Lemma rstrip_id l :
  (forall c, last l = Some c -> isspace c = false) -> rstrip l = l.
Proof.
  intros H. unfold rstrip. rewrite lstrip_id, reverse_involutive; [done|].
  intros c. rewrite head_reverse. apply H.
Qed.

Lemma rstrip_head l c :
  head (rstrip l) = Some c -> head l = Some c.
Proof.
  unfold rstrip. rewrite head_reverse. intros H.
  apply lstrip_last in H. by rewrite last_reverse in H.
Qed.

Lemma strip_trimmed l : trimmed (strip l).
Proof.
  split; intros c H.
  - apply rstrip_head in H. by apply lstrip_head in H.
  - by apply rstrip_last in H.
Qed.

Lemma strip_id l : trimmed l -> strip l = l.
Proof.
  intros [Hh Hl]. unfold strip. rewrite (lstrip_id l Hh). by apply rstrip_id.
Qed.

Lemma head_fmap_chars (f : ascii -> ascii) l : head (f <$> l) = f <$> head l.
Proof. by destruct l. Qed.

Lemma last_fmap_chars (f : ascii -> ascii) l : last (f <$> l) = f <$> last l.
Proof.
  induction l as [|a [|b l] IH]; [done..|].
  change (f <$> a :: b :: l) with (f a :: f b :: (f <$> l)).
  rewrite !last_cons_cons. apply IH.
Qed.

Lemma trimmed_fmap (f : ascii -> ascii) l :
  (forall c, isspace c = false -> isspace (f c) = false) ->
  trimmed l -> trimmed (f <$> l).
Proof.
  intros Hf [Hh Hl]. split; intros c.
  - rewrite head_fmap_chars. destruct (head l) as [a|]; [|done].
    intros [= <-]. by apply Hf, Hh.
  - rewrite last_fmap_chars. destruct (last l) as [a|]; [|done].
    intros [= <-]. by apply Hf, Hl.
Qed.

End Strip.

Section Replace.

Implicit Types l t : chars.

Lemma replace_char a b l : replace [a] [b] l = subst_char a b <$> l.
Proof.
  unfold replace. induction l as [|c l IH]; [done|].
  rewrite fmap_cons. cbn [replace_from startswith length].
  rewrite andb_true_r. unfold subst_char at 1. change (1 - 1) with 0.
  destruct (Ascii.eqb a c); cbn [app]; by rewrite IH.
Qed.

Lemma startswith_uu_inv l :
  startswith uu l = true -> exists t, l = "_"%char :: "_"%char :: t.
Proof.
  unfold uu, of_string.
  destruct l as [|a [|b t]]; cbn [list_ascii_of_string startswith]; intros H.
  - done.
  - by rewrite andb_false_r in H.
  - rewrite andb_true_r in H. apply andb_prop in H as [Ha Hb].
    apply Ascii.eqb_eq in Ha, Hb. subst. by exists t.
Qed.

Lemma replace_uu_hit t :
  replace uu us ("_"%char :: "_"%char :: t) = "_"%char :: replace uu us t.
Proof. reflexivity. Qed.

Lemma replace_uu_miss c t :
  startswith uu (c :: t) = false ->
  replace uu us (c :: t) = c :: replace uu us t.
Proof. unfold replace. cbn [replace_from]. by intros ->. Qed.

(** Induction along the scan of [replace "__" "_"]. *)
Lemma uu_ind (P : chars -> Prop) :
  P [] ->
  (forall t, P t -> P ("_"%char :: "_"%char :: t)) ->
  (forall c t, startswith uu (c :: t) = false -> P t -> P (c :: t)) ->
  forall l, P l.
Proof.
  intros Hnil Hhit Hmiss l.
  remember (length l) as n eqn:Hn. revert l Hn.
  induction n as [n IH] using lt_wf_ind. intros l Hn.
  destruct l as [|c t]; [done|].
  destruct (startswith uu (c :: t)) eqn:Hs.
  - apply startswith_uu_inv in Hs as [t' [= -> ->]].
    apply Hhit, (IH (length t')); [simpl in Hn; lia | done].
  - apply Hmiss; [done|]. apply (IH (length t)); [simpl in Hn; lia | done].
Qed.

Lemma replace_uu_length_le l : length (replace uu us l) <= length l.
Proof.
  induction l as [|t IH|c t Hs IH] using uu_ind; [done|..].
  - rewrite replace_uu_hit. simpl. lia.
  - rewrite replace_uu_miss by done. simpl. lia.
Qed.

Lemma replace_uu_length_lt l :
  contains uu l = true -> length (replace uu us l) < length l.
Proof.
  induction l as [|t IH|c t Hs IH] using uu_ind; [done|..].
  - intros _. rewrite replace_uu_hit. pose proof (replace_uu_length_le t).
    simpl. lia.
  - cbn [contains]. rewrite Hs, orb_false_l. intros H.
    rewrite replace_uu_miss by done. specialize (IH H). simpl. lia.
Qed.

Lemma replace_uu_Forall (P : ascii -> Prop) l :
  Forall P l -> Forall P (replace uu us l).
Proof.
  induction l as [|t IH|c t Hs IH] using uu_ind; [done|..]; intros H.
  - rewrite replace_uu_hit. inversion H as [|? ? Hu H']; subst.
    inversion H' as [|? ? _ H'']; subst. constructor; auto.
  - rewrite replace_uu_miss by done. inversion H; subst. constructor; auto.
Qed.

Lemma replace_uu_head l : head (replace uu us l) = head l.
Proof.
  destruct l as [|c t]; [done|]. destruct (startswith uu (c :: t)) eqn:Hs.
  - by apply startswith_uu_inv in Hs as [t' [= -> ->]].
  - by rewrite replace_uu_miss.
Qed.

Lemma replace_uu_last l : last (replace uu us l) = last l.
Proof.
  induction l as [|t IH|c t Hs IH] using uu_ind; [done|..].
  - rewrite replace_uu_hit, last_cons_cons, !last_cons, IH. done.
  - rewrite replace_uu_miss by done. by rewrite !last_cons, IH.
Qed.

Lemma replace_uu_trimmed l : trimmed l -> trimmed (replace uu us l).
Proof.
  intros [Hh Hl]. split; intros c.
  - rewrite replace_uu_head. apply Hh.
  - rewrite replace_uu_last. apply Hl.
Qed.

Lemma replace_uu_id l : contains uu l = false -> replace uu us l = l.
Proof.
  induction l as [|t IH|c t Hs IH] using uu_ind; [done|..].
  - done.
  - cbn [contains]. rewrite Hs, orb_false_l. intros H.
    rewrite replace_uu_miss by done. by rewrite IH.
Qed.

(** The [while] loop ends within [length name] rounds, on a text without
    a double underscore, and keeps whatever one round of it keeps. *)
Lemma collapse_loop_spec (Q : chars -> Prop) fuel name :
  (forall l, Q l -> Q (replace uu us l)) ->
  Q name -> length name <= fuel ->
  exists r, collapse_loop fuel name = Some r /\ contains uu r = false /\ Q r.
Proof.
  intros HQ. revert name.
  induction fuel as [|fuel IH]; intros name Hq Hlen;
    cbn [collapse_loop]; destruct (contains uu name) eqn:Hc; eauto.
  - destruct name; [done | simpl in Hlen; lia].
  - apply IH; [by apply HQ|].
    pose proof (replace_uu_length_lt name Hc). lia.
Qed.

Lemma collapse_spec (Q : chars -> Prop) name :
  (forall l, Q l -> Q (replace uu us l)) ->
  Q name ->
  collapse_loop (length name) name = Some (collapse name) /\
  contains uu (collapse name) = false /\ Q (collapse name).
Proof.
  intros HQ Hq.
  destruct (collapse_loop_spec Q (length name) name HQ Hq) as (r & E & ? & ?);
    [done|].
  unfold collapse. rewrite E. done.
Qed.

Lemma collapse_id name : contains uu name = false -> collapse name = name.
Proof.
  intros H. unfold collapse. destruct name; cbn [collapse_loop length];
    by rewrite H.
Qed.

End Replace.

Section Normalizer.

Implicit Types l : chars.

Lemma of_to_string l : of_string (to_string l) = l.
Proof. apply list_ascii_of_string_of_list_ascii. Qed.

Lemma to_of_string s : to_string (of_string s) = s.
Proof. apply string_of_list_ascii_of_string. Qed.

Lemma rewrite_char_clean_b c :
  isupper c = false ->
  let d := rewrite_char c in
  isupper d || Ascii.eqb d " " || Ascii.eqb d "/" || Ascii.eqb d "-" = false.
Proof.
  pattern c. apply ascii_cases.
  intros [] [] [] [] [] [] [] []; vm_compute; intros H;
    first [reflexivity | discriminate H].
Qed.

Lemma rewrite_char_clean c : isupper c = false -> clean_char (rewrite_char c).
Proof.
  intros H. apply rewrite_char_clean_b in H. cbv zeta in H.
  apply orb_false_elim in H as [H H3]. apply orb_false_elim in H as [H H2].
  apply orb_false_elim in H as [H0 H1].
  apply Ascii.eqb_neq in H1, H2, H3. by repeat split.
Qed.

Lemma rewrite_char_space c : isspace c = false -> isspace (rewrite_char c) = false.
Proof.
  pattern c. apply ascii_cases.
  intros [] [] [] [] [] [] [] []; vm_compute; intros H;
    first [reflexivity | discriminate H].
Qed.

Lemma rewrite_char_id c : clean_char c -> rewrite_char c = c.
Proof.
  intros (_ & H1 & H2 & H3). unfold rewrite_char, subst_char.
  destruct (Ascii.eqb_spec " " c); [congruence|].
  destruct (Ascii.eqb_spec "/" c); [congruence|].
  destruct (Ascii.eqb_spec "-" c); congruence.
Qed.

Lemma normalize_chars_unfold l :
  normalize_chars l = collapse (rewrite_char <$> lower (strip l)).
Proof.
  unfold normalize_chars, us, of_string. cbn [list_ascii_of_string].
  rewrite !replace_char, <- !list_fmap_compose. done.
Qed.

Lemma fmap_fixed (f : ascii -> ascii) (P : ascii -> Prop) l :
  (forall c, P c -> f c = c) -> Forall P l -> f <$> l = l.
Proof.
  intros Hf. induction 1 as [|c l Hc _ IH]; [done|].
  by rewrite fmap_cons, IH, Hf.
Qed.

Lemma normal_form_of_clean l :
  Forall clean_char l -> trimmed l -> contains uu l = false -> normal_form l.
Proof.
  intros Hc Ht Hu. unfold normal_form, lowercase.
  split; [|split; [|split; [done|split; [|split; [|done]]]]].
  - eapply Forall_impl; [done|]. by intros c [? _].
  - rewrite Forall_forall in Hc.
    intros Hin. destruct (Hc _ Hin) as (_ & ? & _). congruence.
  - rewrite Forall_forall in Hc.
    intros Hin. destruct (Hc _ Hin) as (_ & _ & ? & _). congruence.
  - rewrite Forall_forall in Hc.
    intros Hin. destruct (Hc _ Hin) as (_ & _ & _ & ?). congruence.
Qed.

Lemma clean_of_normal_form l : normal_form l -> Forall clean_char l.
Proof.
  intros (Hl & Hs & _ & Hsl & Hd & _). apply Forall_forall. intros c Hc.
  repeat split.
  - by eapply Forall_forall in Hl.
  - by intros ->.
  - by intros ->.
  - by intros ->.
Qed.

Lemma normalize_chars_normal_form l : normal_form (normalize_chars l).
Proof.
  rewrite normalize_chars_unfold.
  set (x := rewrite_char <$> lower (strip l)).
  destruct (collapse_spec (fun r => Forall clean_char r /\ trimmed r) x)
    as (_ & Hu & Hc & Ht).
  - intros r [? ?]. split; [by apply replace_uu_Forall | by apply replace_uu_trimmed].
  - split.
    + unfold x, lower. rewrite <- list_fmap_compose. apply Forall_fmap, Forall_forall.
      intros c _. apply rewrite_char_clean, isupper_lower_char.
    + apply trimmed_fmap; [apply rewrite_char_space|].
      apply trimmed_fmap; [|apply strip_trimmed].
      intros c. by rewrite isspace_lower_char.
  - by apply normal_form_of_clean.
Qed.

Lemma normalize_chars_fixed l : normal_form l -> normalize_chars l = l.
Proof.
  intros Hn. pose proof (clean_of_normal_form l Hn) as Hc.
  destruct Hn as (Hl & _ & Ht & _ & _ & Hu).
  rewrite normalize_chars_unfold, (strip_id l Ht). unfold lower.
  rewrite (fmap_fixed lower_char _ l lower_char_id Hl).
  rewrite (fmap_fixed rewrite_char _ l rewrite_char_id Hc).
  by apply collapse_id.
Qed.

End Normalizer.

(** ** Column selection and assignment *)

Section Selection.

Implicit Types (df : DataFrame) (cols : list string) (r : list cell).

Lemma elem_of_positions i col cols :
  i ∈ positions col cols <-> cols !! i = Some col.
Proof.
  unfold positions. rewrite list_elem_of_filter, elem_of_seq. split.
  - by intros [? _].
  - intros H. split; [done|]. apply lookup_lt_Some in H. lia.
Qed.

Lemma positions_absent col cols : col ∉ cols -> positions col cols = [].
Proof.
  intros H. destruct (positions col cols) as [|i l] eqn:E; [done|].
  assert (Hi : i ∈ positions col cols) by (rewrite E; left).
  apply elem_of_positions, list_elem_of_lookup_2 in Hi. done.
Qed.

Lemma positions_present col cols :
  col ∈ cols -> positions col cols <> [].
Proof.
  intros [i Hi]%list_elem_of_lookup_1 E.
  apply elem_of_positions in Hi. rewrite E in Hi. by apply not_elem_of_nil in Hi.
Qed.

Lemma positions_NoDup col cols : NoDup (positions col cols).
Proof. apply NoDup_filter, NoDup_seq. Qed.

Lemma positions_single col cols :
  single col cols -> length (positions col cols) <= 1.
Proof.
  intros Hs. pose proof (positions_NoDup col cols) as Hn.
  destruct (positions col cols) as [|i [|j l]] eqn:E; simpl; [lia..|].
  assert (Hi : i ∈ positions col cols) by (rewrite E; left).
  assert (Hj : j ∈ positions col cols) by (rewrite E; right; left).
  apply elem_of_positions in Hi, Hj. pose proof (Hs i j Hi Hj) as ->.
  apply NoDup_cons in Hn as [Hn _]. exfalso. apply Hn. left.
Qed.

Lemma positions_singleton col cols i j :
  positions col cols = [i] -> cols !! j = Some col -> j = i.
Proof.
  intros E Hj. apply elem_of_positions in Hj. rewrite E in Hj.
  by apply list_elem_of_singleton in Hj.
Qed.

Lemma positions_singleton_lookup col cols i :
  positions col cols = [i] -> cols !! i = Some col.
Proof. intros E. apply elem_of_positions. rewrite E. left. Qed.

Lemma insert_cell_at (f : cell -> cell) i r :
  <[i := f (cell_at r i)]> r = alter f i r.
Proof.
  apply list_eq. intros j. destruct (decide (i = j)) as [<-|Hne].
  - rewrite list_lookup_alter_eq. unfold cell_at.
    destruct (r !! i) as [c|] eqn:E; simpl.
    + apply list_lookup_insert_eq. by eapply lookup_lt_Some.
    + apply lookup_ge_None in E. rewrite list_insert_ge by done.
      by apply lookup_ge_None.
  - by rewrite list_lookup_insert_ne, list_lookup_alter_ne.
Qed.

(** Reading a column, mapping it and writing it back is a row-wise
    update of the cell. *)
Lemma setitem_fmap (f : cell -> cell) i df :
  setitem i (f <$> values i df) df = mkDF (columns df) (alter f i <$> rows df).
Proof.
  unfold setitem, values. f_equal.
  rewrite <- list_fmap_compose, zip_with_fmap_r, zip_with_diag.
  apply list_fmap_ext. intros k r _. apply insert_cell_at.
Qed.

Lemma filter_all {A} (P : A -> Prop) `{!forall x, Decision (P x)} (l : list A) :
  (forall x, x ∈ l -> P x) -> filter P l = l.
Proof.
  induction l as [|x l IH]; intros Hall; [done|].
  rewrite filter_cons_True by (apply Hall; left).
  f_equal. apply IH. intros y Hy. apply Hall. by right.
Qed.

Lemma mask_filter {A} (g : A -> bool) (l : list A) :
  fst <$> filter (fun p => Is_true (snd p)) (zip l (g <$> l)) =
  filter (fun x => Is_true (g x)) l.
Proof.
  induction l as [|x l IH]; [done|].
  rewrite fmap_cons. cbn [zip zip_with]. rewrite !filter_cons. cbn [snd].
  destruct (decide (Is_true (g x))); [rewrite fmap_cons; cbn [fst]|];
    by rewrite <- IH.
Qed.

(** Selecting with the mask [g(df[col])] keeps the rows where [g] holds. *)
Lemma boolean_index_filter (g : cell -> bool) i df :
  boolean_index (g <$> values i df) df =
  mkDF (columns df) (filter (fun r => Is_true (g (cell_at r i))) (rows df)).
Proof.
  unfold boolean_index, values. f_equal.
  rewrite <- list_fmap_compose. apply (mask_filter (g ∘ (fun r => cell_at r i))).
Qed.

Lemma at_label_lookup col cols (f : cell -> cell) r k :
  at_label col cols f r !! k =
  if decide (positions col cols = [k]) then f <$> r !! k else r !! k.
Proof.
  unfold at_label. destruct (positions col cols) as [|i [|j l]] eqn:E.
  - by rewrite decide_False.
  - destruct (decide (i = k)) as [->|Hne].
    + by rewrite decide_True, list_lookup_alter_eq.
    + rewrite decide_False by congruence. by rewrite list_lookup_alter_ne.
  - by rewrite decide_False.
Qed.

Lemma at_label_length col cols (f : cell -> cell) r :
  length (at_label col cols f r) = length r.
Proof.
  unfold at_label. destruct (positions col cols) as [|i [|j l]]; try done.
  apply length_alter.
Qed.

End Selection.

(** ** The numeric stages as row filters *)

Section NumericStages.

Implicit Types (df : DataFrame) (cols : list string) (r : list cell).

Lemma result_bind_ok {A B} (m : result A) (k : A -> result B) b :
  (x ← m; k x) = Ok b -> exists a, m = Ok a /\ k a = Ok b.
Proof. destruct m as [a|e]; [by exists a | done]. Qed.

Lemma col_in_true col df : col_in col df = true <-> col ∈ columns df.
Proof. apply bool_decide_eq_true. Qed.

Lemma col_in_false col df : col_in col df = false <-> col ∉ columns df.
Proof. apply bool_decide_eq_false. Qed.

Lemma coerce_column_ok col df df' :
  coerce_column col df = Ok df' ->
  df' = mkDF (columns df) (at_label col (columns df) to_numeric_cell <$> rows df).
Proof.
  unfold coerce_column, at_label, getitem.
  destruct (col_in col df) eqn:Hin.
  - destruct (positions col (columns df)) as [|i [|j l]]; [done| |done].
    intros [= <-]. apply setitem_fmap.
  - apply col_in_false in Hin. rewrite positions_absent by done.
    intros [= <-]. destruct df as [cs rs]. cbn. f_equal.
    symmetry. apply list_fmap_id.
Qed.

Lemma coerce_column_returns col df :
  single col (columns df) -> exists df', coerce_column col df = Ok df'.
Proof.
  intros Hs. unfold coerce_column, getitem.
  destruct (col_in col df) eqn:Hin; [|eauto].
  apply col_in_true, positions_present in Hin.
  apply positions_single in Hs.
  destruct (positions col (columns df)) as [|i [|j l]]; [done|cbn; eauto|].
  simpl in Hs. lia.
Qed.

Lemma coerce_all_ok df df1 :
  for_each numeric_cols coerce_column df = Ok df1 ->
  df1 = mkDF (columns df) (coerced (columns df) <$> rows df).
Proof.
  cbn [numeric_cols for_each].
  intros (d1 & E1 & H)%result_bind_ok.
  apply result_bind_ok in H as (d2 & E2 & [= <-]).
  apply coerce_column_ok in E1. subst d1.
  apply coerce_column_ok in E2. subst d2. cbn [columns rows].
  by rewrite <- list_fmap_compose.
Qed.

Lemma coerce_all_returns df :
  single "price" (columns df) -> single "quantity" (columns df) ->
  exists df1, for_each numeric_cols coerce_column df = Ok df1.
Proof.
  intros Hp Hq. cbn [numeric_cols for_each].
  destruct (coerce_column_returns "price" df Hp) as [d1 E1].
  rewrite E1. pose proof (coerce_column_ok _ _ _ E1) as ->.
  destruct (coerce_column_returns "quantity"
              (mkDF (columns df)
                 (at_label "price" (columns df) to_numeric_cell <$> rows df)) Hq)
    as [d2 E2].
  exists d2. cbn. cbn in E2. by rewrite E2.
Qed.

(** If the coercion passes, each numeric label names at most one column. *)
Lemma coerce_column_single col df df' :
  coerce_column col df = Ok df' -> single col (columns df).
Proof.
  unfold coerce_column, getitem. destruct (col_in col df) eqn:Hin.
  - destruct (positions col (columns df)) as [|i [|j l]] eqn:E; [done| |done].
    intros _ a b Ha Hb.
    by rewrite (positions_singleton _ _ _ _ E Ha), (positions_singleton _ _ _ _ E Hb).
  - apply col_in_false in Hin. intros _ a b Ha _.
    by apply list_elem_of_lookup_2 in Ha.
Qed.

Lemma required_locs_subset df :
  subset_locs (filter (fun c => Is_true (col_in c df)) numeric_cols) df =
  required_locs (columns df).
Proof.
  unfold numeric_cols, subset_locs, required_locs.
  rewrite !filter_cons, filter_nil.
  destruct (decide (Is_true (col_in "price" df))) as [Hp|Hp];
    destruct (decide (Is_true (col_in "quantity" df))) as [Hq|Hq];
    cbn [fmap list_fmap concat]; rewrite ?app_nil_r;
    try (apply Is_true_false, col_in_false in Hp;
         rewrite (positions_absent "price") by done);
    try (apply Is_true_false, col_in_false in Hq;
         rewrite (positions_absent "quantity") by done);
    by rewrite ?app_nil_r.
Qed.

Lemma handle_missing_values_ok df df' :
  handle_missing_values df = Ok df' ->
  df' = mkDF (columns df) (resolved_rows (columns df) (rows df)).
Proof.
  unfold handle_missing_values.
  intros (d1 & E1 & H)%result_bind_ok.
  apply coerce_all_ok in E1.
  pose proof (required_locs_subset d1) as Hlocs.
  assert (Hcols : columns d1 = columns df) by by subst d1.
  assert (Hrows : rows d1 = coerced (columns df) <$> rows df) by by subst d1.
  unfold resolved_rows. rewrite <- Hrows, <- Hcols.
  destruct (filter (fun c => Is_true (col_in c d1)) numeric_cols) as [|c l].
  - injection H as <-. rewrite <- Hlocs. cbn [subset_locs fmap list_fmap concat].
    rewrite filter_all by done. by destruct d1.
  - injection H as <-. unfold dropna. by rewrite Hlocs.
Qed.

Lemma handle_missing_values_returns df :
  single "price" (columns df) -> single "quantity" (columns df) ->
  exists df', handle_missing_values df = Ok df'.
Proof.
  intros Hp Hq. unfold handle_missing_values.
  destruct (coerce_all_returns df Hp Hq) as [d1 ->].
  unfold mbind, result_mbind, result_bind.
  destruct (filter (fun c => Is_true (col_in c d1)) numeric_cols); eauto.
Qed.

Lemma nonneg_at_singleton i r :
  nonneg_at [i] r = ge_zero (cell_at r i).
Proof. unfold nonneg_at. cbn. apply andb_true_r. Qed.

Lemma keep_nonneg_ok col df df' :
  keep_nonneg col df = Ok df' ->
  df' = mkDF (columns df)
          (filter (fun r => Is_true (nonneg_at (positions col (columns df)) r))
             (rows df)).
Proof.
  unfold keep_nonneg, getitem. destruct (col_in col df) eqn:Hin.
  - destruct (positions col (columns df)) as [|i [|j l]]; [done| |done].
    intros [= <-]. rewrite boolean_index_filter. f_equal.
    apply list_filter_iff. intros r. by rewrite nonneg_at_singleton.
  - apply col_in_false in Hin. rewrite positions_absent by done.
    intros [= <-]. rewrite filter_all by done. by destruct df.
Qed.

Lemma keep_nonneg_returns col df :
  single col (columns df) -> exists df', keep_nonneg col df = Ok df'.
Proof.
  intros Hs. unfold keep_nonneg, getitem.
  destruct (col_in col df) eqn:Hin; [|eauto].
  apply col_in_true, positions_present in Hin.
  apply positions_single in Hs.
  destruct (positions col (columns df)) as [|i [|j l]]; [done|cbn; eauto|].
  simpl in Hs. lia.
Qed.

Lemma remove_invalid_rows_ok df df' :
  remove_invalid_rows df = Ok df' ->
  df' = mkDF (columns df) (valid_rows (columns df) (rows df)).
Proof.
  unfold remove_invalid_rows.
  intros (d1 & E1 & H)%result_bind_ok.
  apply result_bind_ok in H as (d2 & E2 & E3).
  apply coerce_all_ok in E1. subst d1.
  apply keep_nonneg_ok in E2. subst d2.
  apply keep_nonneg_ok in E3. by subst df'.
Qed.

Lemma remove_invalid_rows_returns df :
  single "price" (columns df) -> single "quantity" (columns df) ->
  exists df', remove_invalid_rows df = Ok df'.
Proof.
  intros Hp Hq. unfold remove_invalid_rows.
  destruct (coerce_all_returns df Hp Hq) as [d1 E1]. rewrite E1.
  apply coerce_all_ok in E1. subst d1. cbn.
  destruct (keep_nonneg_returns "price"
              (mkDF (columns df) (coerced (columns df) <$> rows df)) Hp)
    as [d2 E2].
  rewrite E2. apply keep_nonneg_ok in E2. subst d2. cbn.
  by apply keep_nonneg_returns.
Qed.

(** A stage that returns had unambiguous numeric labels. *)
Lemma coerce_all_single df df1 :
  for_each numeric_cols coerce_column df = Ok df1 ->
  single "price" (columns df) /\ single "quantity" (columns df).
Proof.
  cbn [numeric_cols for_each].
  intros (d1 & E1 & H)%result_bind_ok.
  apply result_bind_ok in H as (d2 & E2 & _).
  split; [by eapply coerce_column_single|].
  apply coerce_column_single in E2.
  apply coerce_column_ok in E1. by subst d1.
Qed.

End NumericStages.

(** ** Rows after coercion *)

Section CoercedRows.

Implicit Types (cols : list string) (r : list cell).

Lemma to_numeric_cell_cases c :
  to_numeric_cell c = CNaN \/ exists v, to_numeric_cell c = CNum v.
Proof.
  destruct c as [s|v|]; cbn [to_numeric_cell]; [|eauto|eauto].
  destruct (of_string s) as [|a l]; [by left|].
  destruct (floatify (c_str (a :: l))) as [[v|]|]; [|eauto..].
  destruct (int_raises (a :: l)); eauto.
Qed.

Lemma to_numeric_cell_idem c :
  to_numeric_cell (to_numeric_cell c) = to_numeric_cell c.
Proof. by destruct (to_numeric_cell_cases c) as [->|[v ->]]. Qed.

Lemma coerced_lookup cols r j :
  coerced cols r !! j =
  if decide (positions "price" cols = [j] \/ positions "quantity" cols = [j])
  then to_numeric_cell <$> r !! j else r !! j.
Proof.
  unfold coerced. rewrite !at_label_lookup.
  destruct (decide (positions "quantity" cols = [j])) as [Hq|Hq];
    destruct (decide (positions "price" cols = [j])) as [Hp|Hp].
  - rewrite decide_True by auto. destruct (r !! j) as [c|]; [|done].
    cbn. by rewrite to_numeric_cell_idem.
  - by rewrite decide_True by auto.
  - by rewrite decide_True by auto.
  - rewrite decide_False; [done|]. by intros [?|?].
Qed.

Lemma coerced_length cols r : length (coerced cols r) = length r.
Proof. unfold coerced. by rewrite !at_label_length. Qed.

Lemma coerced_idem cols r : coerced cols (coerced cols r) = coerced cols r.
Proof.
  apply list_eq. intros j. rewrite (coerced_lookup cols (coerced cols r)).
  case_decide as H; [|done]. rewrite coerced_lookup, decide_True by done.
  destruct (r !! j) as [c|]; [|done]. cbn. by rewrite to_numeric_cell_idem.
Qed.

Lemma single_positions col cols j :
  single col cols -> cols !! j = Some col -> positions col cols = [j].
Proof.
  intros Hs Hj. apply positions_single in Hs.
  apply elem_of_positions in Hj.
  destruct (positions col cols) as [|i [|k l]]; simpl in Hs.
  - by apply not_elem_of_nil in Hj.
  - by apply list_elem_of_singleton in Hj as ->.
  - lia.
Qed.

(** Under a numeric label the coerced cell is the conversion of the
    original one. *)
Lemma coerced_numeric cols r j col :
  col ∈ numeric_cols -> single col cols -> cols !! j = Some col ->
  coerced cols r !! j = to_numeric_cell <$> r !! j.
Proof.
  intros Hin Hs Hj. rewrite coerced_lookup.
  pose proof (single_positions col cols j Hs Hj) as Hpos.
  rewrite decide_True; [done|].
  unfold numeric_cols in Hin.
  apply elem_of_cons in Hin as [->|Hin]; [by left|].
  apply list_elem_of_singleton in Hin as ->. by right.
Qed.

(** Under any other label the cell is untouched. *)
Lemma coerced_other cols r j col :
  col ∉ numeric_cols -> cols !! j = Some col -> coerced cols r !! j = r !! j.
Proof.
  intros Hin Hj. rewrite coerced_lookup. rewrite decide_False; [done|].
  intros [H|H]; apply positions_singleton_lookup in H;
    rewrite Hj in H; injection H as ->; apply Hin; unfold numeric_cols.
  - left.
  - right. left.
Qed.

Lemma required_locs_elem cols j col :
  col ∈ numeric_cols -> cols !! j = Some col -> j ∈ required_locs cols.
Proof.
  intros Hin Hj. unfold required_locs. apply elem_of_app.
  unfold numeric_cols in Hin.
  apply elem_of_cons in Hin as [->|Hin]; [left; by apply elem_of_positions|].
  apply list_elem_of_singleton in Hin as ->. right. by apply elem_of_positions.
Qed.

Lemma forallb_elem {A} (f : A -> bool) (l : list A) x :
  forallb f l = true -> x ∈ l -> f x = true.
Proof.
  intros H Hx. apply list_elem_of_In in Hx.
  by apply (proj1 (forallb_forall f l) H).
Qed.

Lemma notna_at_elem locs r j :
  Is_true (notna_at locs r) -> j ∈ locs -> cell_at r j <> CNaN.
Proof.
  intros H%Is_true_true Hj E. unfold notna_at in H.
  apply (forallb_elem _ _ j) in H; [|done]. cbv beta in H. by rewrite E in H.
Qed.

Lemma nonneg_at_elem locs r j :
  Is_true (nonneg_at locs r) -> j ∈ locs -> ge_zero (cell_at r j) = true.
Proof.
  intros H%Is_true_true Hj. unfold nonneg_at in H.
  by apply (forallb_elem _ _ j) in H.
Qed.

Lemma ge_zero_inv c : ge_zero c = true -> exists v, c = CNum v /\ nonneg v = true.
Proof. destruct c as [s|v|]; cbn; [done|eauto|done]. Qed.

Lemma cell_at_lookup r j c : cell_at r j = c -> c <> CNaN -> r !! j = Some c.
Proof. unfold cell_at. destruct (r !! j); cbn; congruence. Qed.

End CoercedRows.

(** ** The Missing-Value Resolver and the Invalid-Row Filter *)

Section Resolver.

Implicit Types (df : DataFrame) (cols : list string) (r : list cell).

Lemma fmap_fixed_elem {A} (f : A -> A) (l : list A) :
  (forall x, x ∈ l -> f x = x) -> f <$> l = l.
Proof.
  induction l as [|x l IH]; intros Hall; [done|].
  rewrite fmap_cons, Hall by left. f_equal. apply IH.
  intros y Hy. apply Hall. by right.
Qed.

Lemma resolved_rows_elem cols rs r :
  r ∈ resolved_rows cols rs ->
  Is_true (notna_at (required_locs cols) r) /\
  exists r0, r0 ∈ rs /\ r = coerced cols r0.
Proof.
  unfold resolved_rows. intros [Hn Hr]%list_elem_of_filter. split; [done|].
  apply list_elem_of_fmap in Hr as (r0 & -> & Hr0). eauto.
Qed.

Lemma valid_rows_elem cols rs r :
  r ∈ valid_rows cols rs ->
  Is_true (nonneg_at (positions "price" cols) r) /\
  Is_true (nonneg_at (positions "quantity" cols) r) /\
  exists r0, r0 ∈ rs /\ r = coerced cols r0.
Proof.
  unfold valid_rows.
  intros [Hq [Hp Hr]%list_elem_of_filter]%list_elem_of_filter.
  do 2 (split; [done|]).
  apply list_elem_of_fmap in Hr as (r0 & -> & Hr0). eauto.
Qed.

Lemma resolved_rows_sublist cols rs :
  resolved_rows cols rs `sublist_of` (coerced cols <$> rs).
Proof. apply sublist_filter. Qed.

Lemma valid_rows_sublist cols rs :
  valid_rows cols rs `sublist_of` (coerced cols <$> rs).
Proof.
  unfold valid_rows. etrans; apply sublist_filter.
Qed.

(** A surviving row of the resolver holds a number under each numeric
    label. *)
Lemma resolved_rows_numeric cols rs r j col :
  r ∈ resolved_rows cols rs ->
  col ∈ numeric_cols -> single col cols -> cols !! j = Some col ->
  exists v, r !! j = Some (CNum v).
Proof.
  intros (Hn & r0 & _ & ->)%resolved_rows_elem Hin Hs Hj.
  pose proof (notna_at_elem _ _ j Hn (required_locs_elem _ _ _ Hin Hj)) as Hc.
  pose proof (coerced_numeric cols r0 j col Hin Hs Hj) as Hl.
  unfold cell_at in Hc. rewrite Hl in Hc |- *.
  destruct (r0 !! j) as [c|]; [|done]. cbn in *.
  destruct (to_numeric_cell_cases c) as [E|[v E]]; rewrite E in *; [done|eauto].
Qed.

(** A surviving row of the filter holds a number that is not negative
    under each numeric label. *)
Lemma valid_rows_nonneg cols rs r j col :
  r ∈ valid_rows cols rs ->
  col ∈ numeric_cols -> cols !! j = Some col ->
  exists v, r !! j = Some (CNum v) /\ nonneg v = true.
Proof.
  intros (Hp & Hq & _)%valid_rows_elem Hin Hj.
  assert (Hg : ge_zero (cell_at r j) = true).
  { unfold numeric_cols in Hin. apply elem_of_cons in Hin as [->|Hin].
    - apply (nonneg_at_elem _ _ j Hp). by apply elem_of_positions.
    - apply list_elem_of_singleton in Hin as ->.
      apply (nonneg_at_elem _ _ j Hq). by apply elem_of_positions. }
  apply ge_zero_inv in Hg as (v & Hv & Hnn). exists v. split; [|done].
  by apply cell_at_lookup.
Qed.

Lemma resolved_rows_idem cols rs :
  resolved_rows cols (resolved_rows cols rs) = resolved_rows cols rs.
Proof.
  unfold resolved_rows at 1.
  rewrite (fmap_fixed_elem (coerced cols)).
  - apply filter_all. by intros r [? _]%resolved_rows_elem.
  - intros r (_ & r0 & _ & ->)%resolved_rows_elem. apply coerced_idem.
Qed.

End Resolver.

(** C1 (remove_invalid_rows): when the filter returns, every surviving row
    holds, under each present [price] or [quantity] column, a number that is
    not negative; and an input row whose cell there is the missing marker
    does not survive. *)
Theorem remove_invalid_rows_nonneg df df' :
  remove_invalid_rows df = Ok df' ->
  (forall r j col,
      r ∈ rows df' -> col ∈ numeric_cols -> columns df' !! j = Some col ->
      exists v, r !! j = Some (CNum v) /\ nonneg v = true) /\
  (forall r0 j col,
      r0 ∈ rows df -> col ∈ numeric_cols -> columns df !! j = Some col ->
      r0 !! j = Some CNaN -> coerced (columns df) r0 ∉ rows df').
Proof.
  intros Hok. pose proof (remove_invalid_rows_ok _ _ Hok) as ->.
  cbn [rows columns]. split.
  - intros r j col. apply valid_rows_nonneg.
  - intros r0 j col _ Hin Hj Hna Hr.
    destruct (valid_rows_nonneg _ _ _ j col Hr Hin Hj) as (v & Hv & _).
    unfold remove_invalid_rows in Hok.
    apply result_bind_ok in Hok as (d1 & E1 & _).
    apply coerce_all_single in E1 as [Hp Hq].
    assert (Hs : single col (columns df)).
    { unfold numeric_cols in Hin. apply elem_of_cons in Hin as [->|Hin]; [done|].
      by apply list_elem_of_singleton in Hin as ->. }
    rewrite (coerced_numeric _ _ _ _ Hin Hs Hj), Hna in Hv. done.
Qed.

Lemma remove_invalid_rows_nonneg_witness :
  (forall r j col,
      r ∈ rows sales_valid -> col ∈ numeric_cols ->
      columns sales_valid !! j = Some col ->
      exists v, r !! j = Some (CNum v) /\ nonneg v = true) /\
  (forall r0 j col,
      r0 ∈ rows sales -> col ∈ numeric_cols -> columns sales !! j = Some col ->
      r0 !! j = Some CNaN -> coerced (columns sales) r0 ∉ rows sales_valid).
Proof.
  apply (remove_invalid_rows_nonneg sales sales_valid).
  vm_compute. reflexivity.
Defined.

(** C2 (handle_missing_values): when the resolver returns, every surviving
    row holds a number, not the missing marker, under each present [price]
    or [quantity] column, and the surviving rows are the coerced input rows
    in their original order; with neither column present the stage returns
    its input unchanged. *)
Theorem handle_missing_values_resolves df :
  (forall df',
      handle_missing_values df = Ok df' ->
      (forall r j col,
          r ∈ rows df' -> col ∈ numeric_cols -> columns df' !! j = Some col ->
          exists v, r !! j = Some (CNum v)) /\
      rows df' `sublist_of` (coerced (columns df) <$> rows df)) /\
  (col_in "price" df = false -> col_in "quantity" df = false ->
   handle_missing_values df = Ok df).
Proof.
  split.
  - intros df' Hok. pose proof (handle_missing_values_ok _ _ Hok) as ->.
    cbn [rows columns]. split; [|apply resolved_rows_sublist].
    intros r j col Hr Hin Hj.
    unfold handle_missing_values in Hok.
    apply result_bind_ok in Hok as (d1 & E1 & _).
    apply coerce_all_single in E1 as [Hp Hq].
    apply (resolved_rows_numeric _ _ _ j col Hr Hin); [|done].
    unfold numeric_cols in Hin. apply elem_of_cons in Hin as [->|Hin]; [done|].
    by apply list_elem_of_singleton in Hin as ->.
  - intros Hp Hq. unfold handle_missing_values, numeric_cols.
    cbn [for_each]. unfold coerce_column.
    rewrite Hp. cbn [mbind result_mbind result_bind].
    rewrite Hq. cbn [mbind result_mbind result_bind].
    rewrite !filter_cons, filter_nil.
    rewrite (decide_False (P := Is_true (col_in "price" df)))
      by by apply Is_true_false.
    rewrite (decide_False (P := Is_true (col_in "quantity" df)))
      by by apply Is_true_false.
    done.
Qed.

Lemma handle_missing_values_resolves_witness :
  (forall r j col,
      r ∈ rows sales_resolved -> col ∈ numeric_cols ->
      columns sales_resolved !! j = Some col ->
      exists v, r !! j = Some (CNum v)) /\
  rows sales_resolved `sublist_of` (coerced (columns sales) <$> rows sales).
Proof.
  apply (proj1 (handle_missing_values_resolves sales) sales_resolved).
  vm_compute. reflexivity.
Defined.

(** C9 (handle_missing_values): the resolver is idempotent; run on its own
    output it returns that output unchanged. *)
Theorem handle_missing_values_idempotent df df' :
  handle_missing_values df = Ok df' -> handle_missing_values df' = Ok df'.
Proof.
  intros Hok. pose proof (handle_missing_values_ok _ _ Hok) as Hdf'.
  unfold handle_missing_values in Hok.
  apply result_bind_ok in Hok as (d1 & E1 & _).
  apply coerce_all_single in E1 as [Hp Hq].
  assert (Hc : columns df' = columns df) by by subst df'.
  destruct (handle_missing_values_returns df') as [df'' Hok'];
    [by rewrite Hc..|].
  rewrite Hok'. f_equal.
  apply handle_missing_values_ok in Hok'. rewrite Hok', Hdf'.
  cbn [rows columns]. by rewrite resolved_rows_idem.
Qed.

Lemma handle_missing_values_idempotent_witness :
  handle_missing_values sales_resolved = Ok sales_resolved.
Proof.
  apply (handle_missing_values_idempotent sales sales_resolved).
  vm_compute. reflexivity.
Defined.

(** ** The Text Trimmer *)

Section Trimmer.

Context (str_of_number : number -> string).

Implicit Types (df : DataFrame) (cols : list string) (r : list cell).

Abbreviation trim := (trim_cell str_of_number).

Lemma trim_cell_idem c : trim (trim c) = trim c.
Proof.
  unfold trim_cell. destruct (astype_str_cell str_of_number c) as [s| |] eqn:E;
    [|by destruct c..].
  cbn. f_equal. f_equal. rewrite of_to_string.
  apply strip_id, strip_trimmed.
Qed.

Lemma trim_cell_nan : trim CNaN = CStr "nan".
Proof. reflexivity. Qed.

Lemma trim_all_cons t ts cols r :
  trim_all str_of_number (t :: ts) cols r =
  trim_all str_of_number ts cols (at_label t cols trim r).
Proof. reflexivity. Qed.

Lemma strip_column_ok col df df' :
  strip_column str_of_number col df = Ok df' ->
  df' = mkDF (columns df) (at_label col (columns df) trim <$> rows df) /\
  exists i, positions col (columns df) = [i].
Proof.
  unfold strip_column, at_label, getitem.
  destruct (positions col (columns df)) as [|i [|j l]]; [done| |done].
  intros [= <-]. split; [|eauto].
  rewrite <- list_fmap_compose. apply (setitem_fmap trim).
Qed.

Lemma strip_all_ok ts df df' :
  for_each ts (strip_column str_of_number) df = Ok df' ->
  df' = mkDF (columns df) (trim_all str_of_number ts (columns df) <$> rows df) /\
  (forall t, t ∈ ts -> exists i, positions t (columns df) = [i]).
Proof.
  revert df. induction ts as [|t ts IH]; intros df; cbn [for_each].
  - intros [= <-]. split; [|by intros t ?%not_elem_of_nil].
    destruct df as [cs rs]. cbn. f_equal. symmetry. apply list_fmap_id.
  - intros (d1 & E1 & H)%result_bind_ok.
    apply strip_column_ok in E1 as [-> Hpos].
    apply IH in H as [-> Hall]. cbn [columns rows] in *. split.
    + f_equal. rewrite <- list_fmap_compose. apply list_fmap_ext.
      intros k r _. symmetry. apply trim_all_cons.
    + intros t' [->|Hin]%elem_of_cons; auto.
Qed.

Lemma strip_column_returns col df :
  col ∈ columns df -> single col (columns df) ->
  exists df', strip_column str_of_number col df = Ok df'.
Proof.
  intros Hin%positions_present Hs%positions_single.
  unfold strip_column, getitem.
  destruct (positions col (columns df)) as [|i [|j l]];
    [done|cbn; eauto|simpl in Hs; lia].
Qed.

Lemma strip_all_returns ts df :
  (forall t, t ∈ ts -> t ∈ columns df /\ single t (columns df)) ->
  exists df', for_each ts (strip_column str_of_number) df = Ok df'.
Proof.
  revert df. induction ts as [|t ts IH]; intros df Hall; cbn [for_each]; [eauto|].
  destruct (Hall t) as [Hin Hs]; [left|].
  destruct (strip_column_returns t df Hin Hs) as [d1 E1]. rewrite E1.
  cbn [mbind result_mbind result_bind]. apply IH.
  apply strip_column_ok in E1 as [-> _]. cbn [columns].
  intros t' Hin'. apply Hall. by right.
Qed.

Lemma trim_all_length ts cols r :
  length (trim_all str_of_number ts cols r) = length r.
Proof.
  revert r. induction ts as [|t ts IH]; intros r; [done|].
  by rewrite trim_all_cons, IH, at_label_length.
Qed.

Lemma trim_all_lookup ts cols r j :
  trim_all str_of_number ts cols r !! j =
  if decide (Exists (fun t => positions t cols = [j]) ts)
  then trim <$> r !! j else r !! j.
Proof.
  revert r. induction ts as [|t ts IH]; intros r.
  - rewrite decide_False; [done|]. by intros ?%Exists_nil.
  - rewrite trim_all_cons, IH, at_label_lookup.
    destruct (decide (Exists (fun t => positions t cols = [j]) ts)) as [He|He];
      destruct (decide (positions t cols = [j])) as [Ht|Ht].
    + rewrite decide_True by (by right).
      destruct (r !! j); [|done]. cbn. by rewrite trim_cell_idem.
    + by rewrite decide_True by (by right).
    + by rewrite decide_True by (by left).
    + rewrite decide_False; [done|]. by intros [?|?]%Exists_cons.
Qed.

Lemma elem_of_targets c cols :
  c ∈ targets cols <-> is_target c = true /\ c ∈ cols.
Proof. unfold targets. rewrite list_elem_of_filter, Is_true_true. done. Qed.

(** The cell under a label that is not a target is unchanged. *)
Lemma trim_all_other cols r j col :
  cols !! j = Some col -> is_target col = false ->
  trim_all str_of_number (targets cols) cols r !! j = r !! j.
Proof.
  intros Hj Hc. rewrite trim_all_lookup, decide_False; [done|].
  intros (t & [Ht _]%elem_of_targets & Hpos)%Exists_exists.
  apply positions_singleton_lookup in Hpos. congruence.
Qed.

(** The cell under a target label is trimmed. *)
Lemma trim_all_target cols r j col :
  cols !! j = Some col -> is_target col = true ->
  (forall t, t ∈ targets cols -> exists i, positions t cols = [i]) ->
  trim_all str_of_number (targets cols) cols r !! j = trim <$> r !! j.
Proof.
  intros Hj Hc Hall. rewrite trim_all_lookup, decide_True; [done|].
  apply Exists_exists. exists col.
  assert (Hin : col ∈ targets cols).
  { apply elem_of_targets. split; [done|]. by eapply list_elem_of_lookup_2. }
  split; [done|]. destruct (Hall col Hin) as [i Hi].
  by rewrite Hi, (positions_singleton _ _ _ _ Hi Hj).
Qed.

Lemma strip_product_and_category_ok df df' :
  strip_product_and_category str_of_number df = Ok df' ->
  df' = mkDF (columns df)
          (trim_all str_of_number (targets (columns df)) (columns df) <$> rows df) /\
  (forall t, t ∈ targets (columns df) -> exists i, positions t (columns df) = [i]).
Proof. apply strip_all_ok. Qed.

Lemma strip_product_and_category_returns df :
  (forall c, is_target c = true -> single c (columns df)) ->
  exists df', strip_product_and_category str_of_number df = Ok df'.
Proof.
  intros Hs. apply strip_all_returns.
  intros t [Ht Hin]%elem_of_targets. auto.
Qed.

End Trimmer.

(** C6 (row counts): [clean_column_names] and [strip_product_and_category]
    return as many rows as they are given; [handle_missing_values] and
    [remove_invalid_rows] return no more rows than they are given, the
    surviving ones being the coerced input rows in their original order.
    The normalizer always returns; the other three return whenever no label
    they select occurs twice among the columns. *)
Theorem row_counts (str_of_number : number -> string) df :
  nrows (clean_column_names df) = nrows df /\
  (forall df',
      strip_product_and_category str_of_number df = Ok df' ->
      nrows df' = nrows df) /\
  (forall df',
      handle_missing_values df = Ok df' ->
      nrows df' <= nrows df /\
      rows df' `sublist_of` (coerced (columns df) <$> rows df)) /\
  (forall df',
      remove_invalid_rows df = Ok df' ->
      nrows df' <= nrows df /\
      rows df' `sublist_of` (coerced (columns df) <$> rows df)) /\
  ((forall c, is_target c = true -> single c (columns df)) ->
   exists df', strip_product_and_category str_of_number df = Ok df') /\
  (single "price" (columns df) -> single "quantity" (columns df) ->
   (exists df', handle_missing_values df = Ok df') /\
   (exists df', remove_invalid_rows df = Ok df')).
Proof.
  repeat apply conj.
  - done.
  - intros df' [-> _]%strip_product_and_category_ok.
    unfold nrows. cbn [rows]. apply length_fmap.
  - intros df' ->%handle_missing_values_ok. unfold nrows. cbn [rows].
    pose proof (resolved_rows_sublist (columns df) (rows df)) as Hs.
    split; [|done]. apply sublist_length in Hs. by rewrite length_fmap in Hs.
  - intros df' ->%remove_invalid_rows_ok. unfold nrows. cbn [rows].
    pose proof (valid_rows_sublist (columns df) (rows df)) as Hs.
    split; [|done]. apply sublist_length in Hs. by rewrite length_fmap in Hs.
  - apply strip_product_and_category_returns.
  - intros Hp Hq. split.
    + by apply handle_missing_values_returns.
    + by apply remove_invalid_rows_returns.
Qed.

Lemma row_counts_witness :
  nrows sales_valid <= nrows sales /\
  rows sales_valid `sublist_of` (coerced (columns sales) <$> rows sales).
Proof.
  apply (proj1 (proj2 (proj2 (proj2 (row_counts sample_str sales)))) sales_valid).
  vm_compute. reflexivity.
Defined.

(** C7 (column stability): the three stages after the normalizer return the
    column labels of their input, in the same order; and the trimmer leaves
    the cell under every label that contains neither [product] nor
    [category] as it was, row by row. *)
Theorem column_stability (str_of_number : number -> string) df :
  (forall df',
      strip_product_and_category str_of_number df = Ok df' ->
      columns df' = columns df /\
      forall k r j col,
        rows df !! k = Some r -> columns df !! j = Some col ->
        is_target col = false ->
        exists r', rows df' !! k = Some r' /\ r' !! j = r !! j) /\
  (forall df', handle_missing_values df = Ok df' -> columns df' = columns df) /\
  (forall df', remove_invalid_rows df = Ok df' -> columns df' = columns df).
Proof.
  repeat apply conj.
  - intros df' [-> _]%strip_product_and_category_ok. split; [done|].
    intros k r j col Hk Hj Hc. cbn [rows].
    exists (trim_all str_of_number (targets (columns df)) (columns df) r).
    split; [by rewrite list_lookup_fmap, Hk|].
    by eapply trim_all_other.
  - by intros df' ->%handle_missing_values_ok.
  - by intros df' ->%remove_invalid_rows_ok.
Qed.

Lemma column_stability_witness :
  columns sales_trimmed = columns sales /\
  forall k r j col,
    rows sales !! k = Some r -> columns sales !! j = Some col ->
    is_target col = false ->
    exists r', rows sales_trimmed !! k = Some r' /\ r' !! j = r !! j.
Proof.
  apply (proj1 (column_stability sample_str sales) sales_trimmed).
  vm_compute. reflexivity.
Defined.

(** C10 (strip_product_and_category): in a column whose label contains
    [product] or [category], a cell that is the missing marker comes out of
    the trimmer as the text [nan], which is not a missing marker. *)
Theorem trimmer_fills_missing (str_of_number : number -> string)
  df df' k r j col :
  strip_product_and_category str_of_number df = Ok df' ->
  columns df !! j = Some col -> is_target col = true ->
  rows df !! k = Some r -> r !! j = Some CNaN ->
  exists r', rows df' !! k = Some r' /\
             r' !! j = Some (CStr "nan") /\ isna (CStr "nan") = false.
Proof.
  intros [-> Hall]%strip_product_and_category_ok Hj Hc Hk Hna. cbn [rows].
  exists (trim_all str_of_number (targets (columns df)) (columns df) r).
  split; [by rewrite list_lookup_fmap, Hk|]. split; [|done].
  rewrite (trim_all_target _ _ _ _ _ Hj Hc Hall), Hna. done.
Qed.

Lemma trimmer_fills_missing_witness :
  exists r', rows sales_trimmed !! 1 = Some r' /\
             r' !! 0 = Some (CStr "nan") /\ isna (CStr "nan") = false.
Proof.
  apply (trimmer_fills_missing sample_str sales sales_trimmed 1
           [CNaN; CStr "abc"; CStr "3"] 0 "product");
    vm_compute; reflexivity.
Defined.

(** ** The Header Normalizer *)



(** C8 (clean_column_names): normalizing a normalized label changes
    nothing, so running the normalizer on its own output changes no label. *)
Theorem normalize_label_idempotent label df :
  normalize_label (normalize_label label) = normalize_label label /\
  clean_column_names (clean_column_names df) = clean_column_names df.
Proof.
  assert (H : forall c, normalize_label (normalize_label c) = normalize_label c).
  { intros c. unfold normalize_label at 1.
    rewrite normalize_chars_fixed; [apply to_of_string|].
    unfold normalize_label. rewrite of_to_string.
    apply normalize_chars_normal_form. }
  split; [apply H|].
  unfold clean_column_names. cbn [columns rows]. f_equal.
  rewrite <- list_fmap_compose. apply list_fmap_ext. intros k c _. apply H.
Qed.

(** C5 (clean_column_names), as amended: two distinct labels that
    normalize to the same label are both kept; each column stays at its
    position with its values, and both carry the shared label. *)
Theorem collision_keeps_both df i j a b :
  i < j -> columns df !! i = Some a -> columns df !! j = Some b ->
  a <> b -> normalize_label a = normalize_label b ->
  columns (clean_column_names df) !! i = Some (normalize_label a) /\
  columns (clean_column_names df) !! j = Some (normalize_label a) /\
  values i (clean_column_names df) = values i df /\
  values j (clean_column_names df) = values j df /\
  length (columns (clean_column_names df)) = length (columns df).
Proof.
  intros _ Hi Hj _ Hab. unfold clean_column_names. cbn [columns].
  rewrite !list_lookup_fmap, Hi, Hj, length_fmap. cbn. by rewrite Hab.
Qed.

Lemma collision_keeps_both_witness :
  columns (clean_column_names clash) !! 0 = Some (normalize_label "Price") /\
  columns (clean_column_names clash) !! 1 = Some (normalize_label "Price") /\
  values 0 (clean_column_names clash) = values 0 clash /\
  values 1 (clean_column_names clash) = values 1 clash /\
  length (columns (clean_column_names clash)) = length (columns clash).
Proof.
  apply (collision_keeps_both clash 0 1 "Price" "price").
  - lia.
  - reflexivity.
  - reflexivity.
  - discriminate.
  - vm_compute. reflexivity.
Defined.

(** The overwriting the specification states fails on two headers that
    differ only in case: the earlier column is still there under the shared
    label. *)
Lemma collision_does_not_overwrite : ~ collision_overwrites clash.
Proof.
  intros H.
  apply (H 0 1 "Price" "price" ltac:(lia) eq_refl eq_refl ltac:(discriminate)
           ltac:(vm_compute; reflexivity) 0).
  split; vm_compute; reflexivity.
Qed.

(** ** The numeric coercion *)
(** ** The numeric coercion *)

Section ScannerArithmetic.

Local Open Scope Z_scope.


Lemma nearest_even_cases q r den :
  nearest_even q r den = q \/ nearest_even q r den = q + 1.
Proof.
  unfold nearest_even. destruct (2 * r <? den); [by left|].
  destruct (den <? 2 * r); [by right|]. destruct (Z.even q); auto.
Qed.

(** Rounding to 53 bits keeps a number that is not negative so, and at
    most doubles it. *)
Lemma round53_bounds x : 0 <= x -> 0 <= round53 x <= 2 * x.
Proof.
  intros Hx. unfold round53. destruct (Z.ltb_spec x (2 ^ 53)) as [|Hbig]; [lia|].
  set (k := Z.log2 x - 52).
  assert (Hlog : 53 <= Z.log2 x) by (apply Z.log2_le_pow2; lia).
  assert (Hk : 0 < k) by (unfold k; lia).
  assert (Hp : 0 < 2 ^ k) by (apply Z.pow_pos_nonneg; lia).
  assert (Hpx : 2 ^ k <= x).
  { transitivity (2 ^ Z.log2 x).
    - apply Z.pow_le_mono_r; unfold k; lia.
    - apply Z.log2_spec. lia. }
  pose proof (Z.mul_div_le x (2 ^ k) Hp) as Hq.
  assert (Hq0 : 0 <= x / 2 ^ k) by (apply Z.div_pos; lia).
  destruct (nearest_even_cases (x / 2 ^ k) (x mod 2 ^ k) (2 ^ k)) as [-> | ->]; nia.
Qed.


Lemma digit_nonneg c : 0 <= digit c.
Proof. unfold digit. lia. Qed.

Lemma push_digit_nonneg number c : 0 <= number -> 0 <= push_digit number c.
Proof.
  intros H. unfold push_digit.
  pose proof (round53_bounds (number * 10) ltac:(lia)).
  pose proof (digit_nonneg c).
  apply round53_bounds. lia.
Qed.




Lemma scale_cases number exponent m :
  scale number exponent = Some m -> m = number \/ m = 0.
Proof.
  unfold scale. destruct (308 <? exponent); [done|].
  destruct (0 <? exponent).
  - destruct (huge _); [done|]. intros [= <-]. by left.
  - destruct (exponent <? -308); [|intros [= <-]; by left].
    destruct (exponent <? -616); [intros [= <-]; by right|].
    destruct (round_ratio number _) as [m1 E1].
    destruct (round_ratio _ _) as [m2 E2].
    destruct (m2 =? 0); intros [= <-]; auto.
Qed.

End ScannerArithmetic.

Section Scanner.

Implicit Types l ds rest : chars.









Lemma digit_not_mark c :
  isdigit_ascii c = true ->
  Ascii.eqb c "-" || Ascii.eqb c "+" || Ascii.eqb c "." || Ascii.eqb c "e"
  || Ascii.eqb c "E" || isspace_ascii c = false.
Proof.
  pattern c. apply ascii_cases.
  intros [] [] [] [] [] [] [] []; vm_compute; intros H;
    first [reflexivity | discriminate H].
Qed.




Lemma scan_exponent_nil e : scan_exponent e [] = (e, []).
Proof. reflexivity. Qed.





End Scanner.

Section Readable.

Implicit Types l rest pre : chars.


















End Readable.

Section Conversion.

Implicit Types l rest : chars.

Lemma of_string_nonempty s c t : of_string s = c :: t -> s <> "".
Proof. by intros E ->. Qed.










(** *** Texts that are names *)


Lemma tolower_sign c :
  Ascii.eqb (tolower_ascii c) "-" = Ascii.eqb c "-" /\
  Ascii.eqb (tolower_ascii c) "+" = Ascii.eqb c "+".
Proof.
  pattern c. apply ascii_cases.
  intros [] [] [] [] [] [] [] []; vm_compute; by split.
Qed.






Lemma to_numeric_cell_empty : to_numeric_cell (CStr "") = CNaN.
Proof. reflexivity. Qed.

Lemma to_numeric_cell_floatify s v :
  to_numeric_cell (CStr s) = CNum v ->
  floatify (c_str (of_string s)) = Some (Some v).
Proof.
  cbn [to_numeric_cell]. destruct (of_string s) as [|a l]; [done|].
  destruct (floatify (c_str (a :: l))) as [[w|]|]; [|done..].
  destruct (int_raises (a :: l)); [done|]. by intros [= ->].
Qed.





End Conversion.




(** * Further properties of the stages *)

(** ** Which rows the numeric stages keep *)

Section Survivors.

Implicit Types (df : DataFrame) (cols : list string) (r : list cell).

Lemma single_numeric col df df1 :
  for_each numeric_cols coerce_column df = Ok df1 ->
  col ∈ numeric_cols -> single col (columns df).
Proof.
  intros [Hp Hq]%coerce_all_single Hin. unfold numeric_cols in Hin.
  apply elem_of_cons in Hin as [->|Hin]; [done|].
  by apply list_elem_of_singleton in Hin as ->.
Qed.

Lemma required_locs_inv cols j :
  j ∈ required_locs cols ->
  exists col, col ∈ numeric_cols /\ cols !! j = Some col.
Proof.
  unfold required_locs, numeric_cols.
  intros [H|H]%elem_of_app; apply elem_of_positions in H.
  - exists "price". split; [left|done].
  - exists "quantity". split; [right; left|done].
Qed.


Lemma forallb_intro {A} (f : A -> bool) (l : list A) :
  (forall x, x ∈ l -> f x = true) -> forallb f l = true.
Proof.
  intros H. apply forallb_forall. intros x Hx. apply H.
  by apply list_elem_of_In.
Qed.


Lemma nonneg_at_app l1 l2 r :
  nonneg_at (l1 ++ l2) r = nonneg_at l1 r && nonneg_at l2 r.
Proof. apply forallb_app. Qed.


(** The two masks of the filter, taken together. *)
Lemma valid_rows_filter cols rs :
  valid_rows cols rs =
  filter (fun r => Is_true (nonneg_at (required_locs cols) r)) (coerced cols <$> rs).
Proof.
  unfold valid_rows. rewrite list_filter_filter. apply list_filter_iff.
  intros r. unfold required_locs. rewrite nonneg_at_app.
  rewrite andb_True. tauto.
Qed.

Lemma nonneg_notna locs r :
  Is_true (nonneg_at locs r) -> Is_true (notna_at locs r).
Proof.
  rewrite !Is_true_true. unfold nonneg_at, notna_at. intros H.
  apply forallb_intro. intros j Hj. apply (forallb_elem _ _ j) in H; [|done].
  cbv beta in H. by destruct (cell_at r j).
Qed.

Lemma valid_rows_elem_fixed cols rs r :
  r ∈ valid_rows cols rs -> coerced cols r = r.
Proof. intros (_ & _ & r0 & _ & ->)%valid_rows_elem. apply coerced_idem. Qed.

Lemma resolved_rows_elem_fixed cols rs r :
  r ∈ resolved_rows cols rs -> coerced cols r = r.
Proof. intros (_ & r0 & _ & ->)%resolved_rows_elem. apply coerced_idem. Qed.

Lemma valid_rows_idem cols rs :
  valid_rows cols (valid_rows cols rs) = valid_rows cols rs.
Proof.
  rewrite (valid_rows_filter cols (valid_rows cols rs)).
  rewrite (fmap_fixed_elem (coerced cols)) by apply valid_rows_elem_fixed.
  apply filter_all. intros r Hr. rewrite valid_rows_filter in Hr.
  by apply list_elem_of_filter in Hr as [? _].
Qed.

Lemma valid_rows_resolved cols rs :
  valid_rows cols (resolved_rows cols rs) = valid_rows cols rs.
Proof.
  rewrite !valid_rows_filter.
  rewrite (fmap_fixed_elem (coerced cols) (resolved_rows cols rs))
    by apply resolved_rows_elem_fixed.
  unfold resolved_rows. rewrite list_filter_filter. apply list_filter_iff.
  intros r. split; [by intros [? _]|]. intros H. split; [done|].
  by apply nonneg_notna.
Qed.

Lemma resolved_rows_valid cols rs :
  resolved_rows cols (valid_rows cols rs) = valid_rows cols rs.
Proof.
  unfold resolved_rows.
  rewrite (fmap_fixed_elem (coerced cols) (valid_rows cols rs))
    by apply valid_rows_elem_fixed.
  apply filter_all. intros r Hr. rewrite valid_rows_filter in Hr.
  apply list_elem_of_filter in Hr as [Hr _]. by apply nonneg_notna.
Qed.

End Survivors.





(** X3 (handle_missing_values, remove_invalid_rows): a surviving row comes
    from an input row of the same width, and its cells under every label
    other than [price] and [quantity] are the input row's cells. *)
Theorem numeric_stages_frame df df' r :
  handle_missing_values df = Ok df' \/ remove_invalid_rows df = Ok df' ->
  r ∈ rows df' ->
  exists r0, r0 ∈ rows df /\ length r = length r0 /\
             forall j col, columns df !! j = Some col -> col ∉ numeric_cols ->
                           r !! j = r0 !! j.
Proof.
  intros Hok Hr.
  assert (exists r0, r0 ∈ rows df /\ r = coerced (columns df) r0)
    as (r0 & Hr0 & ->).
  { destruct Hok as [->%handle_missing_values_ok | ->%remove_invalid_rows_ok].
    - by apply resolved_rows_elem in Hr as [_ ?].
    - by apply valid_rows_elem in Hr as (_ & _ & ?). }
  exists r0. split; [done|]. split; [apply coerced_length|].
  intros j col Hj Hc. by eapply coerced_other.
Qed.

Lemma numeric_stages_frame_witness :
  exists r0, r0 ∈ rows sales /\
    length [CStr " Widget  "; CNum (Fin 15 (-1)); CNum (Fin 2 0)] = length r0 /\
    forall j col, columns sales !! j = Some col -> col ∉ numeric_cols ->
      [CStr " Widget  "; CNum (Fin 15 (-1)); CNum (Fin 2 0)] !! j = r0 !! j.
Proof.
  apply (numeric_stages_frame sales sales_valid).
  - right. vm_compute. reflexivity.
  - left.
Defined.

(** X4 (remove_invalid_rows): the filter is idempotent; run on its own
    output it returns that output unchanged. *)
Theorem remove_invalid_rows_idempotent df df' :
  remove_invalid_rows df = Ok df' -> remove_invalid_rows df' = Ok df'.
Proof.
  intros Hok. pose proof (remove_invalid_rows_ok _ _ Hok) as Hdf'.
  unfold remove_invalid_rows in Hok.
  apply result_bind_ok in Hok as (d1 & [Hp Hq]%coerce_all_single & _).
  assert (Hc : columns df' = columns df) by by subst df'.
  destruct (remove_invalid_rows_returns df') as [df'' Hok'];
    [by rewrite Hc..|].
  rewrite Hok'. f_equal.
  apply remove_invalid_rows_ok in Hok'. rewrite Hok', Hdf'.
  cbn [rows columns]. by rewrite valid_rows_idem.
Qed.

Lemma remove_invalid_rows_idempotent_witness :
  remove_invalid_rows sales_valid = Ok sales_valid.
Proof.
  apply (remove_invalid_rows_idempotent sales sales_valid).
  vm_compute. reflexivity.
Defined.

(** X5 (handle_missing_values then remove_invalid_rows): the filter
    re-coerces and drops the missing marker itself, so running it after the
    resolver gives what it gives on the original input; and the resolver
    finds nothing to change in the output of the filter. *)
Theorem filter_subsumes_resolver df :
  (forall d, handle_missing_values df = Ok d ->
             exists df', remove_invalid_rows df = Ok df' /\
                         remove_invalid_rows d = Ok df') /\
  (forall d, remove_invalid_rows df = Ok d -> handle_missing_values d = Ok d).
Proof.
  split; intros d Hok.
  - pose proof (handle_missing_values_ok _ _ Hok) as Hd.
    unfold handle_missing_values in Hok.
    apply result_bind_ok in Hok as (d1 & [Hp Hq]%coerce_all_single & _).
    assert (Hc : columns d = columns df) by by subst d.
    destruct (remove_invalid_rows_returns df Hp Hq) as [df' Hdf'].
    destruct (remove_invalid_rows_returns d) as [d' Hd']; [by rewrite Hc..|].
    exists df'. split; [done|]. rewrite Hd'. f_equal.
    apply remove_invalid_rows_ok in Hdf', Hd'. rewrite Hdf', Hd', Hd.
    cbn [rows columns]. by rewrite valid_rows_resolved.
  - pose proof (remove_invalid_rows_ok _ _ Hok) as Hd.
    unfold remove_invalid_rows in Hok.
    apply result_bind_ok in Hok as (d1 & [Hp Hq]%coerce_all_single & _).
    assert (Hc : columns d = columns df) by by subst d.
    destruct (handle_missing_values_returns d) as [d' Hd']; [by rewrite Hc..|].
    rewrite Hd'. f_equal. apply handle_missing_values_ok in Hd'.
    rewrite Hd', Hd. cbn [rows columns]. by rewrite resolved_rows_valid.
Qed.

Lemma filter_subsumes_resolver_witness :
  exists df', remove_invalid_rows sales = Ok df' /\
              remove_invalid_rows sales_resolved = Ok df'.
Proof.
  apply (proj1 (filter_subsumes_resolver sales) sales_resolved).
  vm_compute. reflexivity.
Defined.

(** ** Clean data and duplicated labels *)

Section EdgeCases.

Implicit Types (df : DataFrame) (cols : list string) (r : list cell).

Lemma coerced_fixed cols r :
  (forall j col, col ∈ numeric_cols -> cols !! j = Some col ->
                 exists v, r !! j = Some (CNum v)) ->
  coerced cols r = r.
Proof.
  intros H. apply list_eq. intros j. rewrite coerced_lookup.
  case_decide as Hd; [|done].
  assert (exists col, col ∈ numeric_cols /\ cols !! j = Some col)
    as (col & Hin & Hj).
  { unfold numeric_cols.
    destruct Hd as [Hd|Hd]; apply positions_singleton_lookup in Hd.
    - exists "price". split; [left|done].
    - exists "quantity". split; [right; left|done]. }
  destruct (H j col Hin Hj) as [v ->]. done.
Qed.

Lemma single_of_positions col cols i :
  positions col cols = [i] -> single col cols.
Proof.
  intros E a b Ha Hb.
  by rewrite (positions_singleton _ _ _ _ E Ha), (positions_singleton _ _ _ _ E Hb).
Qed.

Lemma duplicated_present col cols : duplicated col cols -> col ∈ cols.
Proof.
  unfold duplicated. intros H.
  destruct (positions col cols) as [|i l] eqn:E; [simpl in H; lia|].
  assert (Hi : i ∈ positions col cols) by (rewrite E; left).
  apply elem_of_positions in Hi. by eapply list_elem_of_lookup_2.
Qed.

Lemma coerce_column_raises col df :
  duplicated col (columns df) -> coerce_column col df = Raise TypeError.
Proof.
  intros Hd. pose proof (duplicated_present _ _ Hd) as Hin.
  apply col_in_true in Hin. unfold coerce_column, getitem. rewrite Hin.
  unfold duplicated in Hd.
  destruct (positions col (columns df)) as [|i [|j l]]; simpl in Hd; [lia..|done].
Qed.

Lemma coerce_column_error col df e :
  coerce_column col df = Raise e -> e = TypeError.
Proof.
  unfold coerce_column, getitem. destruct (col_in col df) eqn:Hin; [|done].
  apply col_in_true, positions_present in Hin.
  destruct (positions col (columns df)) as [|i [|j l]]; [done|done|].
  by intros [= <-].
Qed.

Lemma coerce_all_raises df :
  duplicated "price" (columns df) \/ duplicated "quantity" (columns df) ->
  for_each numeric_cols coerce_column df = Raise TypeError.
Proof.
  intros Hd. cbn [numeric_cols for_each].
  destruct (coerce_column "price" df) as [d1|e] eqn:E1.
  - cbn [mbind result_mbind result_bind].
    destruct Hd as [Hd|Hd].
    + by rewrite coerce_column_raises in E1.
    + apply coerce_column_ok in E1. subst d1.
      by rewrite coerce_column_raises.
  - by apply coerce_column_error in E1 as ->.
Qed.

Lemma strip_column_raises (f : number -> string) col df :
  duplicated col (columns df) -> strip_column f col df = Raise AttributeError.
Proof.
  unfold duplicated, strip_column, getitem. intros Hd.
  destruct (positions col (columns df)) as [|i [|j l]]; simpl in Hd; [lia..|done].
Qed.

Lemma strip_column_error (f : number -> string) col df e :
  col ∈ columns df -> strip_column f col df = Raise e -> e = AttributeError.
Proof.
  intros Hin%positions_present. unfold strip_column, getitem.
  destruct (positions col (columns df)) as [|i [|j l]]; [done|done|].
  by intros [= <-].
Qed.

Lemma strip_all_raises (f : number -> string) ts df c :
  (forall t, t ∈ ts -> t ∈ columns df) ->
  c ∈ ts -> duplicated c (columns df) ->
  for_each ts (strip_column f) df = Raise AttributeError.
Proof.
  revert df. induction ts as [|t ts IH]; intros df Hall Hc Hd.
  - by apply not_elem_of_nil in Hc.
  - cbn [for_each]. destruct (strip_column f t df) as [d1|e] eqn:E1.
    + cbn [mbind result_mbind result_bind].
      apply elem_of_cons in Hc as [->|Hc].
      * by rewrite strip_column_raises in E1.
      * apply strip_column_ok in E1 as [-> _]. apply IH; [|done..].
        intros t' Ht'. apply Hall. by right.
    + apply strip_column_error in E1 as ->; [done|]. apply Hall. left.
Qed.

End EdgeCases.

(** X6 (handle_missing_values, remove_invalid_rows): on a frame whose
    [price] and [quantity] cells, where those columns exist once, are all
    numbers that are not negative, both stages return the frame as it is. *)
Theorem numeric_stages_keep_clean df :
  single "price" (columns df) -> single "quantity" (columns df) ->
  (forall r j col,
      r ∈ rows df -> col ∈ numeric_cols -> columns df !! j = Some col ->
      exists v, r !! j = Some (CNum v) /\ nonneg v = true) ->
  handle_missing_values df = Ok df /\ remove_invalid_rows df = Ok df.
Proof.
  intros Hp Hq Hall.
  assert (Hfix : coerced (columns df) <$> rows df = rows df).
  { apply fmap_fixed_elem. intros r Hr. apply coerced_fixed.
    intros j col Hin Hj. destruct (Hall r j col Hr Hin Hj) as (v & ? & _). eauto. }
  assert (Hnn : forall r, r ∈ rows df ->
                          Is_true (nonneg_at (required_locs (columns df)) r)).
  { intros r Hr. apply Is_true_true. unfold nonneg_at. apply forallb_intro.
    intros j Hj. destruct (required_locs_inv _ _ Hj) as (col & Hin & Hc).
    destruct (Hall r j col Hr Hin Hc) as (v & Hv & Hv').
    unfold cell_at. by rewrite Hv. }
  split.
  - destruct (handle_missing_values_returns df Hp Hq) as [df' Hok].
    rewrite Hok. f_equal. apply handle_missing_values_ok in Hok. subst df'.
    unfold resolved_rows. rewrite Hfix, filter_all; [by destruct df|].
    intros r Hr. by apply nonneg_notna, Hnn.
  - destruct (remove_invalid_rows_returns df Hp Hq) as [df' Hok].
    rewrite Hok. f_equal. apply remove_invalid_rows_ok in Hok. subst df'.
    rewrite valid_rows_filter, Hfix, filter_all; [by destruct df|done].
Qed.

Lemma numeric_stages_keep_clean_witness :
  handle_missing_values sales_valid = Ok sales_valid /\
  remove_invalid_rows sales_valid = Ok sales_valid.
Proof.
  apply (numeric_stages_keep_clean sales_valid).
  - apply (single_of_positions _ _ 1). vm_compute. reflexivity.
  - apply (single_of_positions _ _ 2). vm_compute. reflexivity.
  - intros r j col Hr Hin Hj. apply list_elem_of_singleton in Hr as ->.
    destruct j as [|[|[|j]]]; cbn in Hj; try discriminate Hj;
      injection Hj as <-.
    + exfalso. vm_compute in Hin. repeat (apply elem_of_cons in Hin as [Hin|Hin];
        [discriminate Hin|]). by apply not_elem_of_nil in Hin.
    + exists (Fin 15 (-1)). by split.
    + exists (Fin 2 0). by split.
Defined.

(** X7 (handle_missing_values, remove_invalid_rows): when [price] or
    [quantity] labels two columns, [df[col]] is a DataFrame, [to_numeric]
    refuses it and both stages end with a TypeError. *)
Theorem numeric_stages_raise df :
  duplicated "price" (columns df) \/ duplicated "quantity" (columns df) ->
  handle_missing_values df = Raise TypeError /\
  remove_invalid_rows df = Raise TypeError.
Proof.
  intros Hd%coerce_all_raises.
  unfold handle_missing_values, remove_invalid_rows. by rewrite Hd.
Qed.

Lemma numeric_stages_raise_witness :
  handle_missing_values doubled_price = Raise TypeError /\
  remove_invalid_rows doubled_price = Raise TypeError.
Proof.
  apply (numeric_stages_raise doubled_price).
  left. unfold duplicated. vm_compute. lia.
Defined.

(** X8 (strip_product_and_category): when a label that contains [product]
    or [category] labels two columns, [df[col]] is a DataFrame without
    [.str] and the trimmer ends with an AttributeError. *)
Theorem trimmer_raises (str_of_number : number -> string) df c :
  c ∈ columns df -> is_target c = true -> duplicated c (columns df) ->
  strip_product_and_category str_of_number df = Raise AttributeError.
Proof.
  intros Hin Ht Hd. unfold strip_product_and_category.
  apply (strip_all_raises _ _ _ c); [|by apply elem_of_targets|done].
  by intros t [_ ?]%elem_of_targets.
Qed.

Lemma trimmer_raises_witness :
  strip_product_and_category sample_str doubled_product = Raise AttributeError.
Proof.
  apply (trimmer_raises sample_str doubled_product "product").
  - left.
  - vm_compute. reflexivity.
  - unfold duplicated. vm_compute. lia.
Defined.

(** ** More on the trimmer *)

Section TrimmerMore.

Context (str_of_number : number -> string).

Implicit Types (df : DataFrame) (cols : list string) (r : list cell) (l : chars).

Lemma rstrip_split l : exists ws, l = rstrip l ++ ws /\ blank ws.
Proof.
  destruct (lstrip_split (reverse l)) as (ws & E & Hws).
  exists (reverse ws). split; [|by apply Forall_reverse].
  unfold rstrip. rewrite <- reverse_app, <- E. by rewrite reverse_involutive.
Qed.

(** [strip] takes a run of whitespace off each end and nothing else. *)
Lemma strip_split l :
  exists pre suf, l = pre ++ strip l ++ suf /\ blank pre /\ blank suf.
Proof.
  destruct (lstrip_split l) as (pre & E1 & Hpre).
  destruct (rstrip_split (lstrip l)) as (suf & E2 & Hsuf).
  exists pre, suf. split; [|done]. unfold strip. by rewrite <- E2.
Qed.

Lemma trim_all_idem ts cols r :
  trim_all str_of_number ts cols (trim_all str_of_number ts cols r) =
  trim_all str_of_number ts cols r.
Proof.
  apply list_eq. intros j.
  rewrite (trim_all_lookup _ ts cols (trim_all str_of_number ts cols r)).
  case_decide as H; [|done]. rewrite trim_all_lookup, decide_True by done.
  destruct (r !! j); [|done]. cbn. by rewrite trim_cell_idem.
Qed.

Lemma targets_single df :
  (forall t, t ∈ targets (columns df) -> exists i, positions t (columns df) = [i]) ->
  forall c, is_target c = true -> single c (columns df).
Proof.
  intros Hall c Hc i j Hi Hj.
  assert (Hin : c ∈ targets (columns df)).
  { apply elem_of_targets. split; [done|]. by eapply list_elem_of_lookup_2. }
  destruct (Hall c Hin) as [k Hk].
  by rewrite (positions_singleton _ _ _ _ Hk Hi), (positions_singleton _ _ _ _ Hk Hj).
Qed.

Lemma trim_cell_text c :
  exists s, trim_cell str_of_number c = CStr s /\ trimmed (of_string s).
Proof.
  unfold trim_cell.
  destruct (astype_str_cell str_of_number c) as [s| |] eqn:E; [|by destruct c..].
  exists (to_string (strip (of_string s))). split; [done|].
  rewrite of_to_string. apply strip_trimmed.
Qed.

End TrimmerMore.

(** X9 (strip_product_and_category): the trimmer is idempotent; run on its
    own output it returns that output unchanged. *)
Theorem trimmer_idempotent (str_of_number : number -> string) df df' :
  strip_product_and_category str_of_number df = Ok df' ->
  strip_product_and_category str_of_number df' = Ok df'.
Proof.
  intros [Hdf' Hall]%strip_product_and_category_ok.
  assert (Hc : columns df' = columns df) by by subst df'.
  destruct (strip_product_and_category_returns str_of_number df') as [df'' Hok].
  { rewrite Hc. by apply targets_single. }
  rewrite Hok. f_equal. apply strip_product_and_category_ok in Hok as [-> _].
  rewrite Hc. subst df'. cbn [rows columns]. f_equal.
  rewrite <- list_fmap_compose. apply list_fmap_ext. intros k r _.
  apply trim_all_idem.
Qed.

Lemma trimmer_idempotent_witness :
  strip_product_and_category sample_str sales_trimmed = Ok sales_trimmed.
Proof.
  apply (trimmer_idempotent sample_str sales sales_trimmed).
  vm_compute. reflexivity.
Defined.

(** X10 (strip_product_and_category): under a label that contains
    [product] or [category] every cell comes out as text with no whitespace
    character at either end; and for a cell that was text, the new text is
    the old one less a run of whitespace at the front and one at the back, so
    nothing inside it is changed. *)
Theorem trimmer_trims (str_of_number : number -> string) df df' k r j col c :
  strip_product_and_category str_of_number df = Ok df' ->
  columns df !! j = Some col -> is_target col = true ->
  rows df !! k = Some r -> r !! j = Some c ->
  exists r' s,
    rows df' !! k = Some r' /\ r' !! j = Some (CStr s) /\
    trimmed (of_string s) /\
    forall s0, c = CStr s0 ->
      exists pre suf, of_string s0 = pre ++ of_string s ++ suf /\
                      blank pre /\ blank suf.
Proof.
  intros [-> Hall]%strip_product_and_category_ok Hj Hc Hk Hcell. cbn [rows].
  destruct (trim_cell_text str_of_number c) as (s & Hs & Ht).
  exists (trim_all str_of_number (targets (columns df)) (columns df) r), s.
  split; [by rewrite list_lookup_fmap, Hk|].
  split; [by rewrite (trim_all_target _ _ _ _ _ Hj Hc Hall), Hcell, <- Hs|].
  split; [done|]. intros s0 ->. cbn in Hs. injection Hs as <-.
  rewrite of_to_string. apply strip_split.
Qed.

Lemma trimmer_trims_witness :
  exists r' s,
    rows sales_trimmed !! 0 = Some r' /\ r' !! 0 = Some (CStr s) /\
    trimmed (of_string s) /\
    forall s0, CStr " Widget  " = CStr s0 ->
      exists pre suf, of_string s0 = pre ++ of_string s ++ suf /\
                      blank pre /\ blank suf.
Proof.
  apply (trimmer_trims sample_str sales sales_trimmed 0
           [CStr " Widget  "; CStr "1.5"; CStr "2"] 0 "product");
    vm_compute; reflexivity.
Defined.

(** ** More on the normalizer *)

Section NormalizerMore.

Implicit Types l : chars.

Lemma lstrip_length l : length (lstrip l) <= length l.
Proof.
  destruct (lstrip_split l) as (ws & E & _). rewrite E at 2.
  rewrite length_app. lia.
Qed.

Lemma strip_length l : length (strip l) <= length l.
Proof.
  destruct (strip_split l) as (pre & suf & E & _). rewrite E at 2.
  rewrite !length_app. lia.
Qed.

Lemma collapse_length l : length (collapse l) <= length l.
Proof.
  destruct (collapse_spec (fun r => length r <= length l) l) as (_ & _ & H);
    [|done..].
  intros r Hr. pose proof (replace_uu_length_le r). lia.
Qed.

Lemma normalize_chars_length l : length (normalize_chars l) <= length l.
Proof.
  rewrite normalize_chars_unfold.
  set (x := rewrite_char <$> lower (strip l)).
  pose proof (collapse_length x) as H.
  assert (Hx : length x = length (strip l))
    by (unfold x, lower; by rewrite !length_fmap).
  pose proof (strip_length l). lia.
Qed.

Lemma normalize_label_chars label :
  of_string (normalize_label label) = normalize_chars (of_string label).
Proof. unfold normalize_label. apply of_to_string. Qed.

Lemma normalize_label_twice label :
  normalize_label (normalize_label label) = normalize_label label.
Proof.
  unfold normalize_label at 1.
  rewrite normalize_chars_fixed; [apply to_of_string|].
  rewrite normalize_label_chars. apply normalize_chars_normal_form.
Qed.

End NormalizerMore.

(** X11 (clean_column_names): the labels the normalizer leaves as they are
    are exactly the labels in normal form (lowercase, no space, [/] or [-],
    no double underscore, no whitespace at either end). *)
Theorem normalize_label_fixed_iff label :
  normalize_label label = label <-> normal_form (of_string label).
Proof.
  split.
  - intros E. rewrite <- E, normalize_label_chars.
    apply normalize_chars_normal_form.
  - intros H. unfold normalize_label.
    rewrite normalize_chars_fixed by done. apply to_of_string.
Qed.

(** X12 (clean_column_names): a normalized label, of characters below 256,
    is never longer than the label it comes from (on these characters the
    case mapping is one for one), and the normalizer keeps the number of
    columns. *)
Theorem normalize_label_shrinks label df :
  length (of_string (normalize_label label)) <= length (of_string label) /\
  length (columns (clean_column_names df)) = length (columns df).
Proof.
  split.
  - rewrite normalize_label_chars. apply normalize_chars_length.
  - unfold clean_column_names. cbn [columns]. apply length_fmap.
Qed.

(** ** The sign of a converted text *)

Section Sign.

Implicit Types l : chars.

Lemma skip_space_elem l c : c ∈ skip_space l -> c ∈ l.
Proof.
  induction l as [|a l IH]; cbn [skip_space]; [done|].
  destruct (isspace_ascii a); [|done]. intros H. right. by apply IH.
Qed.

Lemma c_str_elem l c : c ∈ c_str l -> c ∈ l.
Proof.
  induction l as [|a l IH]; cbn [c_str]; [done|].
  destruct (Ascii.eqb a zero); [by intros ?%not_elem_of_nil|].
  intros [->|H]%elem_of_cons; [left|right; by apply IH].
Qed.

Lemma scan_sign_minus l l1 : scan_sign l = (true, l1) -> "-"%char ∈ l.
Proof.
  destruct l as [|c t]; cbn [scan_sign]; [done|].
  destruct (Ascii.eqb_spec c "-") as [->|_]; [intros _; left|].
  by destruct (Ascii.eqb c "+").
Qed.

Lemma scan_int_digits_nonneg l number num_digits exponent :
  (0 <= number)%Z ->
  (0 <= (scan_int_digits l number num_digits exponent).1.1.1)%Z.
Proof.
  revert number num_digits exponent.
  induction l as [|c l IH]; intros number num_digits exponent Hn;
    cbn [scan_int_digits]; [done|].
  destruct (isdigit_ascii c); [|done].
  destruct (num_digits <? max_digits)%nat; apply IH; [|done].
  by apply push_digit_nonneg.
Qed.

Lemma scan_frac_digits_nonneg l number num_digits num_decimals :
  (0 <= number)%Z ->
  (0 <= (scan_frac_digits l number num_digits num_decimals).1.1.1)%Z.
Proof.
  revert number num_digits num_decimals.
  induction l as [|c l IH]; intros number num_digits num_decimals Hn;
    cbn [scan_frac_digits]; [done|].
  destruct ((num_digits <? max_digits)%nat && isdigit_ascii c); [|done].
  apply IH. by apply push_digit_nonneg.
Qed.

(** Without a minus sign in the text the scanner's value is not negative:
    the digits add up to a number that is not negative, and the scaling
    keeps it or makes it zero. *)
Lemma xstrtod_nonneg l v rest :
  "-"%char ∉ l -> xstrtod l = Some (v, rest) -> nonneg v = true.
Proof.
  intros Hm. unfold xstrtod.
  destruct (scan_sign (skip_space l)) as [neg l1] eqn:Es.
  destruct neg.
  { exfalso. apply Hm, skip_space_elem. by eapply scan_sign_minus. }
  pose proof (scan_int_digits_nonneg l1 0 0 0 ltac:(done)) as H1.
  destruct (scan_int_digits l1 0 0 0) as [[[number nd] e] l2].
  cbn [fst] in H1.
  set (mid := match l2 with [] => _ | _ => _ end).
  assert (Hmid : (0 <= mid.1.1.1)%Z).
  { subst mid. destruct l2 as [|c l2']; [done|].
    destruct (Ascii.eqb c "."); [|done].
    pose proof (scan_frac_digits_nonneg l2' number nd 0 H1) as Hf.
    by destruct (scan_frac_digits l2' number nd 0) as [[[n' nd'] dec] l']. }
  destruct mid as [[[number' nd'] e'] l3]. cbn [fst] in Hmid.
  destruct nd' as [|k]; [done|].
  destruct (scan_exponent e' l3) as [e'' l4].
  destruct (scale number' e'') as [m|] eqn:Em; [|done].
  intros [= <- _]. cbn [nonneg]. apply Z.leb_le.
  apply scale_cases in Em as [-> | ->]; [done|lia].
Qed.

Lemma tolower_minus l t :
  tolower_ascii <$> l = "-"%char :: t -> "-"%char ∈ l.
Proof.
  destruct l as [|c l]; [done|]. rewrite fmap_cons.
  intros [= Hc _]. apply Ascii.eqb_eq in Hc.
  rewrite (proj1 (tolower_sign c)) in Hc.
  apply Ascii.eqb_eq in Hc as ->. left.
Qed.

Lemma special_nonneg l v :
  "-"%char ∉ l -> special l = Some (Some v) -> nonneg v = true.
Proof.
  intros Hm. unfold special.
  case_bool_decide as H1; [by intros [= <-]|].
  case_bool_decide as H2; [|by case_bool_decide].
  exfalso. apply Hm.
  assert (E : tolower_ascii <$> l
              = of_string (to_string (tolower_ascii <$> l)))
    by by rewrite of_to_string.
  destruct H2 as [H2|H2]; rewrite H2 in E; by eapply tolower_minus.
Qed.

Lemma floatify_nonneg l v :
  "-"%char ∉ l -> floatify l = Some (Some v) -> nonneg v = true.
Proof.
  intros Hm. unfold floatify, to_double.
  destruct (xstrtod l) as [[w rest]|] eqn:E.
  - destruct rest; [|by apply special_nonneg].
    intros [= <-]. by eapply xstrtod_nonneg.
  - by apply special_nonneg.
Qed.

End Sign.

(** X13 (to_numeric in handle_missing_values / remove_invalid_rows): a
    text without a minus sign never converts to a negative number, so the
    invalid-row filter drops a row for its text cell only when that text
    carries a minus sign or does not convert at all. *)
Theorem unsigned_text_nonneg s v :
  to_numeric_cell (CStr s) = CNum v -> "-"%char ∉ of_string s ->
  nonneg v = true.
Proof.
  intros H%to_numeric_cell_floatify Hm. eapply floatify_nonneg; [|exact H].
  intros Hc. by apply Hm, c_str_elem.
Qed.

Lemma unsigned_text_nonneg_witness : nonneg (Fin 15 (-1)) = true.
Proof.
  apply (unsigned_text_nonneg "1.5" (Fin 15 (-1))).
  - vm_compute. reflexivity.
  - vm_compute. intros H.
    repeat (apply elem_of_cons in H as [H|H]; [discriminate H|]).
    by apply not_elem_of_nil in H.
Defined.

(** ** The four stages in a row *)

Section Stages.

Context (str_of_number : number -> string).

Implicit Types (df : DataFrame) (cols : list string) (r : list cell).

Abbreviation trim_row cols := (trim_all str_of_number (targets cols) cols).

Lemma target_not_numeric col : is_target col = true -> col ∉ numeric_cols.
Proof.
  intros Ht Hin. unfold numeric_cols in Hin.
  apply elem_of_cons in Hin as [->|Hin]; [by vm_compute in Ht|].
  apply list_elem_of_singleton in Hin as ->. by vm_compute in Ht.
Qed.

(** What the chain returns, when it returns. *)
Lemma run_stages_ok df df' :
  run_stages str_of_number df = Ok df' ->
  let cols := normalize_label <$> columns df in
  df' = mkDF cols (valid_rows cols (trim_row cols <$> rows df)) /\
  (forall t, t ∈ targets cols -> exists i, positions t cols = [i]) /\
  single "price" cols /\ single "quantity" cols.
Proof.
  unfold run_stages. intros (d1 & E1 & H)%result_bind_ok.
  apply result_bind_ok in H as (d2 & E2 & E3).
  apply strip_product_and_category_ok in E1 as [-> Hall].
  cbn [columns rows clean_column_names] in *.
  pose proof (handle_missing_values_ok _ _ E2) as ->.
  unfold handle_missing_values in E2.
  apply result_bind_ok in E2 as (d & [Hp Hq]%coerce_all_single & _).
  apply remove_invalid_rows_ok in E3 as ->. cbn [columns rows] in *.
  by rewrite valid_rows_resolved.
Qed.

Lemma trim_row_fixed cols rs r :
  r ∈ valid_rows cols (trim_row cols <$> rs) -> trim_row cols r = r.
Proof.
  intros (_ & _ & r1 & (r0 & -> & _)%list_elem_of_fmap & ->)%valid_rows_elem.
  apply list_eq. intros j. rewrite trim_all_lookup.
  case_decide as He; [|done]. pose proof He as He'.
  apply Exists_exists in He as (t & [Ht _]%elem_of_targets & Hpos).
  apply positions_singleton_lookup in Hpos.
  rewrite (coerced_other _ _ j t (target_not_numeric t Ht) Hpos).
  rewrite trim_all_lookup, decide_True by done.
  destruct (r0 !! j); [|done]. cbn. by rewrite trim_cell_idem.
Qed.

Lemma trim_row_cell cols r0 j col :
  cols !! j = Some col -> is_target col = true ->
  (forall t, t ∈ targets cols -> exists i, positions t cols = [i]) ->
  coerced cols (trim_row cols r0) !! j = trim_cell str_of_number <$> r0 !! j.
Proof.
  intros Hj Ht Hall.
  rewrite (coerced_other _ _ j col (target_not_numeric col Ht) Hj).
  by eapply trim_all_target.
Qed.

Lemma duplicated_of_two col cols i j :
  i <> j -> cols !! i = Some col -> cols !! j = Some col -> duplicated col cols.
Proof.
  intros Hne Hi%elem_of_positions Hj%elem_of_positions. unfold duplicated.
  destruct (positions col cols) as [|a [|b l]]; simpl; [|exfalso|lia].
  - by apply not_elem_of_nil in Hi.
  - apply list_elem_of_singleton in Hi, Hj. congruence.
Qed.

End Stages.

(** X14 (the chain under __main__): when the four stages return, the
    columns are the normalized labels in their order, there are no more
    rows than before, every [price] and [quantity] cell is a number that is
    not negative, and every cell under a label that contains [product] or
    [category] is text with no whitespace at either end. *)
Theorem run_stages_result (str_of_number : number -> string) df df' :
  run_stages str_of_number df = Ok df' ->
  columns df' = normalize_label <$> columns df /\
  nrows df' <= nrows df /\
  (forall r j col,
      r ∈ rows df' -> columns df' !! j = Some col ->
      (col ∈ numeric_cols ->
       exists v, r !! j = Some (CNum v) /\ nonneg v = true) /\
      (is_target col = true ->
       forall c, r !! j = Some c ->
                 exists s, c = CStr s /\ trimmed (of_string s))).
Proof.
  intros (-> & Hall & Hp & Hq)%run_stages_ok. cbn [columns rows].
  set (cols := normalize_label <$> columns df) in *.
  split; [done|]. split.
  - unfold nrows. cbn [rows].
    pose proof (valid_rows_sublist cols
                  (trim_all str_of_number (targets cols) cols <$> rows df)) as Hs.
    apply sublist_length in Hs. by rewrite !length_fmap in Hs.
  - intros r j col Hr Hj. split.
    + intros Hin. by eapply valid_rows_nonneg.
    + intros Ht c Hc.
      apply valid_rows_elem in Hr
        as (_ & _ & r1 & (r0 & -> & _)%list_elem_of_fmap & ->).
      rewrite (trim_row_cell str_of_number cols r0 j col Hj Ht Hall) in Hc.
      destruct (r0 !! j) as [c0|]; [|done]. cbn in Hc. injection Hc as <-.
      apply trim_cell_text.
Qed.

Lemma run_stages_result_witness :
  columns sales_clean = normalize_label <$> columns sales_raw /\
  nrows sales_clean <= nrows sales_raw /\
  (forall r j col,
      r ∈ rows sales_clean -> columns sales_clean !! j = Some col ->
      (col ∈ numeric_cols ->
       exists v, r !! j = Some (CNum v) /\ nonneg v = true) /\
      (is_target col = true ->
       forall c, r !! j = Some c ->
                 exists s, c = CStr s /\ trimmed (of_string s))).
Proof.
  apply (run_stages_result sample_str sales_raw sales_clean).
  vm_compute. reflexivity.
Defined.

(** X15 (the chain under __main__): cleaning is idempotent; the four stages
    run on their own result return it unchanged. *)
Theorem run_stages_idempotent (str_of_number : number -> string) df df' :
  run_stages str_of_number df = Ok df' ->
  run_stages str_of_number df' = Ok df'.
Proof.
  intros (Hdf' & Hall & Hp & Hq)%run_stages_ok.
  set (cols := normalize_label <$> columns df) in *.
  assert (Hc : columns df' = cols) by by subst df'.
  assert (Hclean : clean_column_names df' = df').
  { unfold clean_column_names. rewrite Hc. unfold cols.
    rewrite <- list_fmap_compose.
    rewrite (list_fmap_ext (normalize_label ∘ normalize_label) normalize_label)
      by (intros; apply normalize_label_twice).
    fold cols. rewrite <- Hc. by destruct df'. }
  assert (Hrows : rows df' =
                  valid_rows cols
                    (trim_all str_of_number (targets cols) cols <$> rows df))
    by by subst df'.
  assert (Hrec : mkDF cols (rows df') = df') by (rewrite <- Hc; by destruct df').
  assert (Hstrip : strip_product_and_category str_of_number df' = Ok df').
  { destruct (strip_product_and_category_returns str_of_number df') as [d Hd].
    { apply targets_single. by rewrite Hc. }
    rewrite Hd. f_equal. apply strip_product_and_category_ok in Hd as [-> _].
    rewrite Hc, fmap_fixed_elem; [done|].
    intros r Hr. rewrite Hrows in Hr. by eapply trim_row_fixed. }
  assert (Hres : handle_missing_values df' = Ok df').
  { destruct (handle_missing_values_returns df') as [d Hd]; [by rewrite Hc..|].
    rewrite Hd. f_equal. apply handle_missing_values_ok in Hd as ->.
    rewrite Hc. rewrite Hrows at 1. rewrite resolved_rows_valid.
    by rewrite <- Hrows. }
  assert (Hval : remove_invalid_rows df' = Ok df').
  { destruct (remove_invalid_rows_returns df') as [d Hd]; [by rewrite Hc..|].
    rewrite Hd. f_equal. apply remove_invalid_rows_ok in Hd as ->.
    rewrite Hc. rewrite Hrows at 1. rewrite valid_rows_idem.
    by rewrite <- Hrows. }
  unfold run_stages. rewrite Hclean, Hstrip.
  cbn [mbind result_mbind result_bind]. rewrite Hres.
  cbn [mbind result_mbind result_bind]. done.
Qed.

Lemma run_stages_idempotent_witness :
  run_stages sample_str sales_clean = Ok sales_clean.
Proof.
  apply (run_stages_idempotent sample_str sales_raw sales_clean).
  vm_compute. reflexivity.
Defined.

(** X16 (the chain under __main__): when two raw headers normalize to the
    same numeric label ([price] or [quantity]), the chain does not return a
    frame: it ends with the trimmer's AttributeError or with the TypeError
    of the coercion. *)
Theorem run_stages_collision (str_of_number : number -> string) df i j col :
  i <> j -> col ∈ numeric_cols ->
  (normalize_label <$> columns df) !! i = Some col ->
  (normalize_label <$> columns df) !! j = Some col ->
  run_stages str_of_number df = Raise AttributeError \/
  run_stages str_of_number df = Raise TypeError.
Proof.
  intros Hne Hin Hi Hj.
  pose proof (duplicated_of_two col _ i j Hne Hi Hj) as Hd.
  assert (Hd' : duplicated "price" (normalize_label <$> columns df) \/
                duplicated "quantity" (normalize_label <$> columns df)).
  { unfold numeric_cols in Hin. apply elem_of_cons in Hin as [->|Hin]; [by left|].
    apply list_elem_of_singleton in Hin as ->. by right. }
  unfold run_stages.
  destruct (strip_product_and_category str_of_number (clean_column_names df))
    as [d1|e] eqn:E1.
  - right. cbn [mbind result_mbind result_bind].
    apply strip_product_and_category_ok in E1 as [-> _].
    unfold handle_missing_values. rewrite coerce_all_raises; done.
  - left. cbn [mbind result_mbind result_bind]. f_equal.
    unfold strip_product_and_category in E1. clear -E1.
    assert (forall ts d, (forall t, t ∈ ts -> t ∈ columns d) ->
              for_each ts (strip_column str_of_number) d = Raise e ->
              e = AttributeError) as Hgen.
    { induction ts as [|t ts IH]; intros d Hall; cbn [for_each]; [done|].
      destruct (strip_column str_of_number t d) as [d'|e'] eqn:E.
      - cbn [mbind result_mbind result_bind].
        apply strip_column_ok in E as [-> _]. apply IH.
        intros t' Ht'. apply Hall. by right.
      - cbn [mbind result_mbind result_bind]. intros [= <-].
        eapply strip_column_error; [|done]. apply Hall. left. }
    eapply Hgen; [|done]. by intros t [_ ?]%elem_of_targets.
Qed.

Lemma run_stages_collision_witness :
  run_stages sample_str clash = Raise AttributeError \/
  run_stages sample_str clash = Raise TypeError.
Proof.
  apply (run_stages_collision sample_str clash 0 1 "price").
  - lia.
  - left.
  - vm_compute. reflexivity.
  - vm_compute. reflexivity.
Defined.
